(** * muxclaw: ingress enqueuer and egress reconciler of [src/cli.ts]

    A shallow embedding of the message pipeline of [cli.ts] and the
    properties of its prompt assembly, admission filter, error boundary,
    output stripping, chunked delivery and job retirement.

    Layout:
    - [JS]        ECMAScript string primitives used by the source
                  ([trim], [indexOf], [lastIndexOf], [slice], ...);
    - [Platform]  what the source takes from its runtime and libraries
                  ([join], [basename], [convert], environment directories);
    - [Eff]       the calls the source awaits, their outcomes, and a small
                  monad that threads the trace of performed calls;
    - [Paths]     the directory layout;
    - [Ingress]   [createIngressHandler] and its helpers;
    - [Egress]    [sendSplitMessage], [processJob], [scanAndProcess] and the
                  body of the watch loop of [egress];
    - [Spec]      the notions the specification speaks in (lines, delivery
                  units, admission, permission bits) and the observations
                  made on traces;
    - [Sample]    a concrete platform, worlds and messages, several taken
                  from [cli_test.ts].

    The properties follow the definitions. *)

From Stdlib Require Import ZArith NArith Lia Bool Ascii String DecimalString.
From Stdlib Require Import Eqdep_dec Sorted Decimal DecimalZ DecimalPos.
From stdpp Require Import base tactics option list gmap.

Local Open Scope Z_scope.

(** ** ECMAScript strings *)

Module JS.

(** A string is a sequence of UTF-16 code units. *)
Definition char := N.
Definition str := list char.

(** A source literal (ASCII only). *)
Definition lit (s : string) : str :=
  List.map N_of_ascii (list_ascii_of_string s).

Definition NL : char := 10%N.
Definition COMMA : char := 44%N.

(** [WhiteSpace] and [LineTerminator] code units: what [trim] removes. *)
Definition isWhite (c : char) : bool :=
  ((9 <=? c) && (c <=? 13) || (c =? 32) || (c =? 160) || (c =? 5760)
   || (8192 <=? c) && (c <=? 8202) || (c =? 8232) || (c =? 8233)
   || (c =? 8239) || (c =? 8287) || (c =? 12288) || (c =? 65279))%N.

Fixpoint trimStart (s : str) : str :=
  match s with
  | c :: s' => if isWhite c then trimStart s' else s
  | [] => []
  end.

Definition trimEnd (s : str) : str := rev (trimStart (rev s)).

Definition trim (s : str) : str := trimEnd (trimStart s).

(** [s.length]. *)
Definition len (s : str) : Z := Z.of_nat (length s).

(** Truthiness of a string: non-empty. *)
Definition truthy (s : str) : bool :=
  match s with [] => false | _ => true end.

(** [s.indexOf(c)] for a one-unit search string, scanning from index [i]. *)
Fixpoint indexOf_from (c : char) (s : str) (i : Z) : Z :=
  match s with
  | [] => -1
  | x :: s' => if (x =? c)%N then i else indexOf_from c s' (i + 1)
  end.

Definition indexOf (c : char) (s : str) : Z := indexOf_from c s 0.

(** [s.lastIndexOf(c, pos)]: the greatest index [k <= pos] holding [c], or
    [-1].  [acc] is the best index seen so far. *)
Fixpoint lastIndexOf_from (c : char) (s : str) (i pos acc : Z) : Z :=
  match s with
  | [] => acc
  | x :: s' =>
      lastIndexOf_from c s' (i + 1) pos
        (if (x =? c)%N && (i <=? pos) then i else acc)
  end.

(** An omitted position is [+Infinity], clamped to the last index. *)
Definition lastIndexOf (c : char) (s : str) (pos : option Z) : Z :=
  lastIndexOf_from c s 0 (Z.max (default (len s) pos) 0) (-1).

(** [s.slice(start, end)], with negative indices counted from the end. *)
Definition relIndex (n i : Z) : Z :=
  if i <? 0 then Z.max (n + i) 0 else Z.min i n.

Definition slice (s : str) (start : Z) (stop : option Z) : str :=
  let n := len s in
  let from := relIndex n start in
  let to := match stop with Some e => relIndex n e | None => n end in
  take (Z.to_nat (Z.max (to - from) 0)) (drop (Z.to_nat from) s).

(** [s.startsWith(c)] for a one-unit prefix. *)
Definition startsWith (c : char) (s : str) : bool :=
  match s with
  | x :: _ => (x =? c)%N
  | [] => false
  end.

(** [xs.join(sep)]. *)
Fixpoint join (sep : str) (xs : list str) : str :=
  match xs with
  | [] => []
  | [x] => x
  | x :: xs' => x ++ sep ++ join sep xs'
  end.

(** [s.split(c)] for a one-unit separator: the lines of [s] when [c] is the
    newline. *)
Fixpoint split (c : char) (s : str) : list str :=
  match s with
  | [] => [[]]
  | x :: s' =>
      if (x =? c)%N then [] :: split c s'
      else match split c s' with
           | l :: ls => (x :: l) :: ls
           | [] => [[x]]
           end
  end.

(** [String(n)] and [`${n}`] for an integral number. *)
Definition ofZ (n : Z) : str := lit (NilZero.string_of_int (Z.to_int n)).

(** [`${v}`] when [v] may be [undefined]. *)
Definition ofOptZ (v : option Z) : str :=
  match v with
  | Some n => ofZ n
  | None => lit "undefined"
  end.

(** Code-unit order, as used by [Array.prototype.sort] without comparator. *)
Fixpoint ltb (a b : str) : bool :=
  match a, b with
  | [], [] => false
  | [], _ :: _ => true
  | _ :: _, [] => false
  | x :: a', y :: b' => (x <? y)%N || (x =? y)%N && ltb a' b'
  end.

Fixpoint insertSorted (x : str) (xs : list str) : list str :=
  match xs with
  | [] => [x]
  | y :: ys => if ltb y x || negb (ltb x y) then y :: insertSorted x ys
               else x :: xs
  end.

(** [xs.sort()], stable. *)
Definition sort (xs : list str) : list str :=
  foldr insertSorted [] (rev xs).

End JS.

Import JS.

Arguments lit : simpl never.
Arguments ofZ : simpl never.
Arguments trim : simpl never.

(** ** Effects: awaited calls, outcomes and the trace *)

Module Eff.

(** A thrown value: an [Error] with its message. *)
Inductive Exn := Error (message : str).

(** How an awaited call settles. *)
Inductive Outcome (A : Type) :=
| Returned (a : A)
| Threw (e : Exn).
Arguments Returned {A} a.
Arguments Threw {A} e.

(** [meta.json], schema [JobMeta] of the source. *)
Record JobMeta := {
  channel : str;     (* the literal 'telegram' *)
  chatId : Z;
  messageId : Z;
  userId : option Z;
}.

Record Response := { ok : bool; status : Z; statusText : str }.
Record CommandOutput := { success : bool; stdout : str; stderr : str }.
Record FileInfo := { isSymlink : bool }.
Record DirEntry := { name : str; isFile : bool }.

(** The types of the values that calls resolve to. *)
Inductive Ty :=
| TUnit | TPath | TResponse | TBytes | TText | TOutput | TInfo | TEntries.

Definition El (ty : Ty) : Type :=
  match ty with
  | TUnit => unit
  | TPath => option str
  | TResponse => Response
  | TBytes => list N
  | TText => str
  | TOutput => CommandOutput
  | TInfo => FileInfo
  | TEntries => list DirEntry
  end.

Global Instance Ty_eq_dec : EqDecision Ty.
Proof. solve_decision. Defined.

(** The calls of the runtime, of the chat client and of the network that
    the source awaits; the index is the type of the value a call resolves
    to. *)
Inductive Call : Ty -> Type :=
| ReplyWithChatAction (action : str) : Call TUnit
| Mkdir (path : str) (recursive : bool) (mode : Z) : Call TUnit
| Remove (path : str) (recursive : bool) : Call TUnit
| GetFile (fileId : str) : Call TPath
| Fetch (url : str) : Call TResponse
| ArrayBuffer (url : str) : Call TBytes
| WriteFile (path : str) (data : list N) : Call TUnit
| WriteTextFile (path : str) (text : str) : Call TUnit
| ReadTextFile (path : str) : Call TText
| RunCommand (cmd : str) (args : list str) (cwd : str)
    (env : list (str * str)) : Call TOutput
| Symlink (target link : str) : Call TUnit
| Rename (from to : str) : Call TUnit
| Lstat (path : str) : Call TInfo
| Stat (path : str) : Call TUnit
| ReadDir (path : str) : Call TEntries
| WatchFs (dirs : list str) : Call TUnit
| SendChatAction (chat : Z) (action : str) : Call TUnit
| SendMessage (chat : Z) (text : str) (replyTo : Z) (parseMode : str)
    : Call TUnit.

(** Second argument of a [console.error]. *)
Inductive LogArg := NoArg | ErrArg (e : Exn) | StrArg (s : str).

Inductive Event :=
| Performed {ty : Ty} (c : Call ty) (r : Outcome (El ty))
| ConsoleLog (msg : str)
| ConsoleError (msg : str) (arg : LogArg).

Definition Trace := list Event.

(** The world: how each call settles, given everything performed so far. *)
Definition Oracle := forall ty : Ty, Trace -> Call ty -> Outcome (El ty).

(** A computation reads the world and extends the trace. *)
Definition M (A : Type) : Type := Oracle -> Trace -> Outcome A * Trace.

Definition ret {A} (a : A) : M A := fun _ t => (Returned a, t).

Definition throw {A} (e : Exn) : M A := fun _ t => (Threw e, t).

Definition bind {A B} (m : M A) (f : A -> M B) : M B :=
  fun o t =>
    match m o t with
    | (Returned a, t') => f a o t'
    | (Threw e, t') => (Threw e, t')
    end.

(** [await c]. *)
Definition await {ty} (c : Call ty) : M (El ty) :=
  fun o t => let r := o ty t c in (r, t ++ [Performed c r]).

(** [try { m } catch (err) { h err }]. *)
Definition tryCatch {A} (m : M A) (h : Exn -> M A) : M A :=
  fun o t =>
    match m o t with
    | (Returned a, t') => (Returned a, t')
    | (Threw e, t') => h e o t'
    end.

Definition consoleLog (msg : str) : M unit :=
  fun _ t => (Returned tt, t ++ [ConsoleLog msg]).

Definition consoleError (msg : str) (arg : LogArg) : M unit :=
  fun _ t => (Returned tt, t ++ [ConsoleError msg arg]).

(** Running from the empty trace. *)
Definition run {A} (m : M A) (o : Oracle) : Outcome A * Trace := m o [].

End Eff.

Import Eff.

Declare Scope eff_scope.
Delimit Scope eff_scope with eff.
Notation "x <- m ;; k" := (bind m (fun x => k))
  (at level 100, m at next level, right associativity) : eff_scope.
Notation "m ;; k" := (bind m (fun _ => k))
  (at level 100, right associativity) : eff_scope.
Local Open Scope eff_scope.

(** ** What the source takes from its runtime and libraries *)

Record Platform := {
  (** [join] of [@std/path]. *)
  path_join : list str -> str;
  (** [basename] and [dirname] of [@std/path]. *)
  basename : str -> str;
  dirname : str -> str;
  (** [convert(text, 'escape')] of [telegram-markdown-v2]. *)
  convert : str -> str;
  (** Directories resolved from the environment at start-up. *)
  DATA_DIR : str;
  QUEUE_DIR : str;
  (** [Deno.execPath()] and [import.meta.dirname]. *)
  execPath : str;
  moduleDir : str;
  (** [JSON.stringify(meta, null, 2)] and
      [v.parse(JobMeta, JSON.parse(text))]. *)
  stringifyMeta : JobMeta -> str;
  parseMeta : str -> Outcome JobMeta;
}.

(** ** Directory layout (lines 69-78 and 151-157) *)

Module Paths.
Section WithPlatform.

Variable P : Platform.

Definition MESSAGES_DIR : str := path_join P [DATA_DIR P; lit "messages"].
Definition QUEUE_COMPLETED_DIR : str :=
  path_join P [QUEUE_DIR P; lit "completed"].
Definition QUEUE_FAILED_DIR : str := path_join P [QUEUE_DIR P; lit "failed"].

Definition getMessageDir (channel id : str) : str :=
  path_join P [MESSAGES_DIR; channel; id].

Definition getJobDir (jobFile : str) : str :=
  path_join P [DATA_DIR P; jobFile ++ lit ".d"].

Definition getJobMeta (jobFile : str) : str :=
  path_join P [getJobDir jobFile; lit "meta.json"].

End WithPlatform.
End Paths.

Import Paths.

(** ** Ingress: [createIngressHandler] *)

Module Ingress.

(** The parts of a Telegram update that the handler reads.  [document],
    [audio], [voice] and the sizes of [photo] are all read through
    [file_id], [file_name] and [mime_type] only. *)
Record TgFile := {
  file_id : str;
  file_name : option str;
  mime_type : option str;
}.

Record Quoted := { quoted_text : option str; quoted_caption : option str }.

Record Message := {
  message_id : option Z;
  text : option str;
  caption : option str;
  photo : option (list TgFile);
  document : option TgFile;
  audio : option TgFile;
  voice : option TgFile;
  video : bool;
  sticker : bool;
  reply_to_message : option Quoted;
}.

Record User := { from_id : option Z; username : option str }.
Record Chat := { chat_id : option Z }.

Record IngressContext := {
  from : option User;
  chat : option Chat;
  message : option Message;
}.

Record AttachmentInfo := { fileId : str; fileName : str }.

(** [a ?? b]. *)
Definition orElse {A} (a b : option A) : option A :=
  match a with Some _ => a | None => b end.

(** [a?.f]. *)
Definition chain {A B} (a : option A) (f : A -> option B) : option B :=
  match a with Some x => f x | None => None end.
Notation "a ?. f" := (chain a f) (at level 50, left associativity).

(** The extension table of [mimeToExt]: the own keys of the object
    literal (a MIME type that names a property of [Object.prototype] is
    not modelled). *)
Definition mimeTable : list (str * str) :=
  [ (lit "image/jpeg", lit ".jpg"); (lit "image/png", lit ".png");
    (lit "image/gif", lit ".gif"); (lit "image/webp", lit ".webp");
    (lit "audio/ogg", lit ".ogg"); (lit "audio/mpeg", lit ".mp3");
    (lit "audio/mp4", lit ".m4a"); (lit "application/pdf", lit ".pdf");
    (lit "text/plain", lit ".txt") ].

Fixpoint assoc (k : str) (tbl : list (str * str)) : option str :=
  match tbl with
  | [] => None
  | (k', v) :: tbl' => if bool_decide (k = k') then Some v else assoc k tbl'
  end.

Definition mimeToExt (mime : option str) (fallback : str) : str :=
  match mime with
  | None => fallback
  | Some m => if truthy m then default fallback (assoc m mimeTable)
              else fallback
  end.

Definition getMsgType (message : option Message) : str :=
  match message with
  | None => lit "other"
  | Some m =>
      if truthy (default [] (text m)) then lit "text"
      else if bool_decide (is_Some (photo m)) then lit "photo"
      else match document m with
      | Some d =>
          lit "document(" ++ default (lit "<unknown>") (file_name d) ++ lit ")"
      | None =>
          if video m then lit "video"
          else if bool_decide (is_Some (voice m)) then lit "voice"
          else if bool_decide (is_Some (audio m)) then lit "audio"
          else if sticker m then lit "sticker"
          else if bool_decide (is_Some (reply_to_message m)) then lit "reply"
          else lit "other"
      end
  end.

Definition extractAttachments (message : option Message)
  : list AttachmentInfo :=
  match message with
  | None => []
  | Some m =>
      (match photo m with
       | Some (p :: ps) =>
           [ {| fileId := default (lit "<unknown>")
                            (file_id <$> last (p :: ps));
                fileName := lit "photo.jpg" |} ]
       | _ => []
       end)
      ++ (match document m with
          | Some doc =>
              [ {| fileId := file_id doc;
                   fileName :=
                     default (lit "document" ++ mimeToExt (mime_type doc) [])
                       (file_name doc) |} ]
          | None => []
          end)
      ++ (match audio m with
          | Some a =>
              [ {| fileId := file_id a;
                   fileName :=
                     default
                       (lit "audio" ++ mimeToExt (mime_type a) (lit ".mp3"))
                       (file_name a) |} ]
          | None => []
          end)
      ++ (match voice m with
          | Some v =>
              [ {| fileId := file_id v;
                   fileName :=
                     lit "voice" ++ mimeToExt (mime_type v) (lit ".ogg") |} ]
          | None => []
          end)
  end.

Section WithPlatform.

Variable P : Platform.

Definition downloadAttachment (token fileId dir fileName : str) : M str :=
  file_path <- await (GetFile fileId);;
  match file_path with
  | Some fp =>
      if truthy fp then
        let url := lit "https://api.telegram.org/file/bot" ++ token
                   ++ lit "/" ++ fp in
        response <- await (Fetch url);;
        if ok response then
          data <- await (ArrayBuffer url);;
          let filePath := path_join P [dir; fileName] in
          await (WriteFile filePath data);;
          ret filePath
        else
          throw (Error (lit "Failed to download file: "
                        ++ ofZ (status response) ++ lit " "
                        ++ statusText response))
      else throw (Error (lit "No file_path returned for file_id: " ++ fileId))
  | None => throw (Error (lit "No file_path returned for file_id: " ++ fileId))
  end.

(** The [for (const attach of attachments)] loop; [attachmentPaths] is the
    array filled so far. *)
Fixpoint downloadAll (token attachDir : str)
    (attachments : list AttachmentInfo) (attachmentPaths : list str)
  : M (list str) :=
  match attachments with
  | [] => ret attachmentPaths
  | attach :: rest =>
      paths <- tryCatch
        (path <- downloadAttachment token (fileId attach) attachDir
                   (fileName attach);;
         consoleLog (lit "[ingress] Downloaded attachment: " ++ path);;
         ret (attachmentPaths ++ [path]))
        (fun err =>
           consoleError (lit "[ingress] Failed to download attachment "
                         ++ fileName attach ++ lit ":") (ErrArg err);;
           ret attachmentPaths);;
      downloadAll token attachDir rest paths
  end.

(** Lines 335-345: the prompt. *)
Definition manifest (attachmentPaths : list str) : str :=
  join [NL]
    (imap (fun i p => ofZ (Z.of_nat i + 1) ++ lit ". @" ++ p) attachmentPaths).

Definition buildPrompt (text quote : str) (attachmentPaths : list str) : str :=
  let prompt := text in
  let prompt :=
    if truthy quote then lit "Quote: " ++ quote ++ [NL; NL] ++ prompt
    else prompt in
  if 0 <? Z.of_nat (length attachmentPaths) then
    trim (lit "Attachments:" ++ [NL] ++ manifest attachmentPaths
          ++ [NL; NL] ++ prompt)
  else prompt.

(** The [mode] option of both [Deno.mkdir] calls: [0o755]. *)
Definition MODE : Z := 0x1ed.

(** Lines 385-405: link and metadata commit. *)
Definition commit (messageDir jobFile : str) (chatId messageId : Z)
    (userId : option Z) : M unit :=
  let jobLink := path_join P [DATA_DIR P; jobFile ++ lit ".d"] in
  tryCatch (await (Symlink messageDir jobLink))
    (fun err =>
       consoleError (lit "[ingress] Failed to create symlink " ++ jobLink
                     ++ lit ":") (ErrArg err));;
  let meta := {| channel := lit "telegram"; chatId := chatId;
                 messageId := messageId; userId := userId |} in
  await (WriteTextFile (path_join P [messageDir; lit "meta.json"])
           (stringifyMeta P meta));;
  consoleLog (lit "[ingress] Queued: " ++ jobFile ++ lit " from user "
              ++ ofOptZ userId).

(** Lines 294-333: attachment staging.  [None] is the early [return] of an
    attachment-only message whose downloads all failed. *)
Definition stage (token messageDir text : str)
    (attachments : list AttachmentInfo) : M (option (list str)) :=
  if 0 <? Z.of_nat (length attachments) then
    let attachDir := path_join P [messageDir; lit "attachments"] in
    await (Mkdir attachDir true MODE);;
    attachmentPaths <- downloadAll token attachDir attachments [];;
    if Z.of_nat (length attachmentPaths) =? 0 then
      tryCatch (await (Remove attachDir true)) (fun _ => ret tt);;
      if negb (truthy text) then
        await (Remove messageDir true);;
        ret None
      else ret (Some attachmentPaths)
    else ret (Some attachmentPaths)
  else ret (Some []).

(** Lines 352-383: submission to [nq]; [None] is the early [return] after a
    failed submission. *)
Definition enqueue (channel sourceId : str) : M (option str) :=
  result <- await
    (RunCommand (lit "nq")
       [execPath P; lit "task"; lit "--quiet"; lit "cli"; lit "dispatch";
        lit "--id"; channel ++ lit ":" ++ sourceId]
       (moduleDir P)
       [(lit "NQDIR", QUEUE_DIR P); (lit "NQDONEDIR", QUEUE_COMPLETED_DIR P);
        (lit "NQFAILDIR", QUEUE_FAILED_DIR P)]);;
  let jobFile := trim (stdout result) in
  if negb (truthy jobFile) || negb (success result) then
    consoleError (lit "[ingress] nq failed:") (StrArg (stderr result));;
    ret None
  else ret (Some jobFile).

(** The body of the [try] block, lines 289-405; the guard of line 277 has
    narrowed [chatId] and [messageId] to numbers. *)
Definition accepted (token text quote : str)
    (attachments : list AttachmentInfo) (chatId messageId : Z)
    (userId : option Z) : M unit :=
  let channel := lit "telegram" in
  let sourceId := ofZ chatId ++ lit "_" ++ ofZ messageId in
  let messageDir := getMessageDir P channel sourceId in
  await (Mkdir messageDir true MODE);;
  staged <- stage token messageDir text attachments;;
  match staged with
  | None => ret tt
  | Some attachmentPaths =>
      let prompt := buildPrompt text quote attachmentPaths in
      await (ReplyWithChatAction (lit "typing"));;
      await (WriteTextFile (path_join P [messageDir; lit "prompt.txt"])
               prompt);;
      queued <- enqueue channel sourceId;;
      match queued with
      | None => ret tt
      | Some jobFile => commit messageDir jobFile chatId messageId userId
      end
  end.

(** Line 258: [ctx.message?.text ?? ctx.message?.caption ?? '']. *)
Definition messageText (ctx : IngressContext) : str :=
  default [] (orElse (message ctx ?. text) (message ctx ?. caption)).

(** Lines 262-264: the text or the caption of the message replied to. *)
Definition messageQuote (ctx : IngressContext) : str :=
  default []
    (orElse (message ctx ?. reply_to_message ?. quoted_text)
            (message ctx ?. reply_to_message ?. quoted_caption)).

(** The [catch] clause of lines 406-408. *)
Definition reportError (err : Exn) : M unit :=
  consoleError (lit "[ingress] Error:") (ErrArg err).

(** The icons of the rejection log line: U+26A0 U+FE0F, U+2705,
    U+26D4 U+FE0F. *)
Definition WARNING : str := [9888; 65039]%N.
Definition CHECK : str := [9989]%N.
Definition NO_ENTRY : str := [9940; 65039]%N.

(** The handler returned by [createIngressHandler(bot, allowedIds)]; of
    [bot] only the token is read here, its [api] is reached through
    [GetFile]. *)
Definition createIngressHandler (token : str) (allowedIds : gset str)
    (ctx : IngressContext) : M unit :=
  let userId := from ctx ?. from_id in
  let chatId := chat ctx ?. chat_id in
  let messageId := message ctx ?. message_id in
  let isAllowed :=
    match userId with
    | Some u => bool_decide (ofZ u ∈ allowedIds)
    | None => false
    end in
  let isMissingId :=
    negb (bool_decide (is_Some chatId))
    || negb (bool_decide (is_Some messageId)) in
  let username := default (lit "(unknown)") (from ctx ?. username) in
  let text := messageText ctx in
  let attachments := extractAttachments (message ctx) in
  let msgType := getMsgType (message ctx) in
  let quote := messageQuote ctx in
  let details :=
    [lit "type=" ++ msgType]
    ++ (if truthy text then [lit "text=" ++ text] else [])
    ++ (if truthy quote then [lit "quote=" ++ quote] else [])
    ++ (if 0 <? Z.of_nat (length attachments)
        then [lit "attachments=" ++ ofZ (Z.of_nat (length attachments))]
        else []) in
  consoleLog (lit "[ingress] Message from " ++ username ++ lit " ("
              ++ ofOptZ userId ++ lit "): " ++ join (lit ", ") details);;
  if isMissingId || negb isAllowed
     || (negb (truthy text) && (Z.of_nat (length attachments) =? 0)) then
    consoleLog (lit "[ingress] "
                ++ (if isMissingId then WARNING
                    else if isAllowed then CHECK else NO_ENTRY)
                ++ lit " Disallowed, malformed or empty message, skipping it")
  else
    await (ReplyWithChatAction (lit "typing"));;
    tryCatch
      (* past the guard both identifiers are numbers *)
      (match chatId, messageId with
       | Some chatId, Some messageId =>
           accepted token text quote attachments chatId messageId userId
       | _, _ => ret tt
       end)
      reportError.

End WithPlatform.

End Ingress.

Import Ingress.

(** ** Egress: [sendSplitMessage], [processJob], [scanAndProcess], [egress] *)

Module Egress.
Section WithPlatform.

Variable P : Platform.

Definition MAX_LENGTH : Z := 4096.
Definition MarkdownV2 : str := lit "MarkdownV2".

(** Lines 501-504. *)
Definition splitIndexOf (remaining : str) : Z :=
  let splitIndex := lastIndexOf NL remaining (Some MAX_LENGTH) in
  if splitIndex =? -1 then MAX_LENGTH else splitIndex.

(** The [while (remaining.length > MAX_LENGTH)] loop of lines 500-514,
    unrolled at most [fuel] times.  It resolves to the [remaining] left when
    the loop exits, and to [None] when [fuel] iterations did not reach the
    exit. *)
Fixpoint whileLoop (fuel : nat) (chatId replyToMessageId : Z)
    (remaining : str) : M (option str) :=
  if MAX_LENGTH <? len remaining then
    match fuel with
    | O => ret None
    | S fuel' =>
        let splitIndex := splitIndexOf remaining in
        let chunk := trim (slice remaining 0 (Some splitIndex)) in
        (if truthy chunk
         then await (SendMessage chatId chunk replyToMessageId MarkdownV2)
         else ret tt);;
        whileLoop fuel' chatId replyToMessageId
          (trim (slice remaining splitIndex None))
    end
  else ret (Some remaining).

(** [sendSplitMessage(bot, chatId, text, replyToMessageId)].  Every
    iteration shortens [remaining], so its length bounds the number of
    iterations and [None] does not arise. *)
Definition sendSplitMessage (chatId : Z) (text : str)
    (replyToMessageId : Z) : M unit :=
  let escapedOutput := convert P text in
  left <- whileLoop (length escapedOutput) chatId replyToMessageId
            escapedOutput;;
  match left with
  | Some remaining =>
      if truthy remaining
      then await (SendMessage chatId remaining replyToMessageId MarkdownV2)
      else ret tt
  | None => ret tt
  end.

(** Lines 565-570: from the text of the job file to [output]. *)
Definition jobOutput (logText : str) : str :=
  let raw := trim logText in
  let firstNl := indexOf NL raw in
  let lastNl := lastIndexOf NL raw None in
  if negb (firstNl =? -1) && negb (firstNl =? lastNl)
  then trim (slice raw (firstNl + 1) (Some lastNl))
  else raw.

(** A synchronous step that may throw, such as [v.parse]. *)
Definition settle {A} (r : Outcome A) : M A := fun _ t => (r, t).

(** Lines 581-595: the job file moves into the [.d] directory, the link
    goes. *)
Definition retire (scanDir jobName : str) (meta : JobMeta) : M unit :=
  let logPath := path_join P [scanDir; jobName] in
  let jobDir := getJobDir P jobName in
  await (Rename logPath (path_join P [jobDir; jobName]));;
  let jobLink := path_join P [DATA_DIR P; jobName ++ lit ".d"] in
  tryCatch
    (stat <- await (Lstat jobLink);;
     if isSymlink stat then await (Remove jobLink false) else ret tt)
    (fun _ => ret tt);;
  consoleLog (lit "[egress] Sent response for " ++ jobName
              ++ lit " to chat " ++ ofZ (chatId meta)).

Definition processJob (scanDir jobName : str) : M unit :=
  let logPath := path_join P [scanDir; jobName] in
  let metaPath := getJobMeta P jobName in
  metaText <- await (ReadTextFile metaPath);;
  meta <- settle (parseMeta P metaText);;
  logText <- await (ReadTextFile logPath);;
  let output := jobOutput logText in
  if negb (truthy output) then
    consoleLog (lit "[egress] Empty output for " ++ jobName
                ++ lit ", skipping")
  else
    await (SendChatAction (chatId meta) (lit "typing"));;
    sendSplitMessage (chatId meta) output (messageId meta);;
    retire scanDir jobName meta.

(** The [for (const name of jobs)] loop of lines 539-545. *)
Fixpoint processJobs (scanDir : str) (jobs : list str) : M unit :=
  match jobs with
  | [] => ret tt
  | name :: rest =>
      tryCatch (processJob scanDir name)
        (fun err =>
           consoleError (lit "[egress] Error processing " ++ name ++ lit ":")
             (ErrArg err));;
      processJobs scanDir rest
  end.

(** Lines 532-537: the job names collected from the directory entries. *)
Definition collectJobs (entries : list DirEntry) : list str :=
  sort (name <$>
        filter (fun entry => isFile entry && startsWith COMMA (name entry))
          entries).

Definition scanAndProcess (scanDir : str) : M unit :=
  tryCatch
    (entries <- await (ReadDir scanDir);;
     processJobs scanDir (collectJobs entries))
    (fun err => consoleError (lit "[egress] Scan error:") (ErrArg err)).

Record FsEvent := { kind : str; paths : list str }.

(** One turn of [for (const path of event.paths)], lines 467-485;
    [processing] is the guard set, returned as the turn leaves it.  The
    [catch] clause cannot throw, so [finally] is the statement after it. *)
Definition handlePath (processing : gset str) (path : str) : M (gset str) :=
  let fileName := basename P path in
  if negb (startsWith COMMA fileName) then ret processing
  else if bool_decide (fileName ∈ processing) then ret processing
  else
    present <- tryCatch
      (await (Stat path);;
       await (Stat (getJobMeta P fileName));;
       ret true)
      (fun _ => ret false);;
    if negb present then ret processing
    else
      let processing := processing ∪ {[fileName]} in
      tryCatch (processJob (dirname P path) fileName)
        (fun err =>
           consoleError (lit "[egress] Error processing " ++ fileName
                         ++ lit ":") (ErrArg err));;
      ret (processing ∖ {[fileName]}).

Fixpoint handlePaths (processing : gset str) (ps : list str)
  : M (gset str) :=
  match ps with
  | [] => ret processing
  | path :: rest =>
      processing' <- handlePath processing path;;
      handlePaths processing' rest
  end.

(** The [for await (const event of watcher)] loop on the events delivered
    so far. *)
Fixpoint watch (processing : gset str) (events : list FsEvent)
  : M (gset str) :=
  match events with
  | [] => ret processing
  | event :: rest =>
      if bool_decide (kind event = lit "access")
         || bool_decide (kind event = lit "other")
      then watch processing rest
      else
        processing' <- handlePaths processing (paths event);;
        watch processing' rest
  end.

(** [egress()] from line 450 on, the configuration being loaded: the two
    start-up scans, the opening of the watcher ([Deno.watchFs], which may
    throw), then the watch loop. *)
Definition egress (events : list FsEvent) : M (gset str) :=
  scanAndProcess (QUEUE_COMPLETED_DIR P);;
  scanAndProcess (QUEUE_FAILED_DIR P);;
  consoleLog
    (lit "[egress] Watching for completed/failed jobs... (Ctrl-C to stop)");;
  await (WatchFs [QUEUE_COMPLETED_DIR P; QUEUE_FAILED_DIR P]);;
  watch ∅ events.

End WithPlatform.
End Egress.

Import Egress.

(** ** The specification's vocabulary *)

Module Spec.

(** The lines of a text. *)
Definition lines (s : str) : list str := split NL s.

(** The lines between the first and the last. *)
Definition interiorLines (ls : list str) : list str := removelast (tail ls).

(** Header and footer stripping as the specification words it: a text of
    more than two lines loses its first and its last line and what is left
    is trimmed; a text of one or two lines stays as it is. *)
Definition strippedOutput (logText : str) : str :=
  let raw := trim logText in
  if (2 <? length (lines raw))%nat
  then trim (join [NL] (interiorLines (lines raw)))
  else raw.

(** The sender is in the allow-list. *)
Definition senderAllowed (allowedIds : gset str) (ctx : IngressContext)
  : Prop :=
  exists u, from ctx ?. from_id = Some u /\ ofZ u ∈ allowedIds.

(** The admission filter: an allowed sender, a conversation id [c] and a
    message id [m], and text or attachments. *)
Definition admitted (allowedIds : gset str) (ctx : IngressContext)
    (c m : Z) : Prop :=
  senderAllowed allowedIds ctx /\
  chat ctx ?. chat_id = Some c /\
  message ctx ?. message_id = Some m /\
  (messageText ctx ≠ [] \/ extractAttachments (message ctx) ≠ []).

(** The permission bits of a mode: owner, group, others; each is read (4),
    write (2), execute (1). *)
Definition ownerBits (mode : Z) : Z := Z.land (Z.shiftr mode 6) 7.
Definition groupBits (mode : Z) : Z := Z.land (Z.shiftr mode 3) 7.
Definition otherBits (mode : Z) : Z := Z.land mode 7.

(** Owner read, write and execute only: nothing for group or others. *)
Definition ownerOnly (mode : Z) : Prop :=
  ownerBits mode = 7 /\ groupBits mode = 0 /\ otherBits mode = 0.

(** The event is a [Deno.symlink] call. *)
Definition isSymlinkEvent (ev : Event) : bool :=
  match ev with
  | Performed (Symlink _ _) _ => true
  | _ => false
  end.

(** The event is a delivery call that threw: its error. *)
Definition deliveryThrew (ev : Event) : option Exn :=
  match ev with
  | Performed (SendChatAction _ _) (Threw e) => Some e
  | Performed (SendMessage _ _ _ _) (Threw e) => Some e
  | _ => None
  end.

(** The event is a retirement call: a rename or a removal. *)
Definition isRetirement (ev : Event) : bool :=
  match ev with
  | Performed (Rename _ _) _ => true
  | Performed (Remove _ _) _ => true
  | _ => false
  end.

(** The event is the rename of a file. *)
Definition isRenameEvent (ev : Event) : bool :=
  match ev with
  | Performed (Rename _ _) _ => true
  | _ => false
  end.

(** [lstat] returned and reported a symbolic link. *)
Definition linkIsSymlink (rl : Outcome FileInfo) : bool :=
  match rl with
  | Returned info => isSymlink info
  | Threw _ => false
  end.

(** A unit that was sent and accepted. *)
Definition sent (chatId replyToMessageId : Z) (chunk : str) : Event :=
  Performed (SendMessage chatId chunk replyToMessageId (lit "MarkdownV2"))
    (Returned tt).

(** [Emits Q m]: whatever the world, [m] only appends events, all in [Q]. *)
Definition Emits (Q : Event -> Prop) {A} (m : M A) : Prop :=
  forall o t, exists evs, snd (m o t) = t ++ evs /\ Forall Q evs.

(** The cut of a text longer than the limit: the last newline at or before
    the limit when there is one, the limit otherwise. *)
Definition SplitPoint (s : str) (k : nat) : Prop :=
  (s !! k = Some NL /\ (k <= 4096)%nat /\
   forall j : nat, (k < j <= 4096)%nat -> s !! j ≠ Some NL)
  \/ (k = 4096%nat /\ forall j : nat, (j <= 4096)%nat -> s !! j ≠ Some NL).

(** A chunk becomes a delivery unit unless it is empty. *)
Definition piece (chunk : str) : list str :=
  if truthy chunk then [chunk] else [].

(** [Cuts s units]: the delivery units of the escaped text [s].  A text
    within the limit is one unit, as it is; a longer text is cut at its
    split point, the part before the cut is trimmed, and the trimmed rest
    is cut in turn. *)
Inductive Cuts : str -> list str -> Prop :=
| cuts_fits s :
    len s <= 4096 -> Cuts s (piece s)
| cuts_split s k rest :
    4096 < len s -> SplitPoint s k ->
    Cuts (trim (drop k s)) rest ->
    Cuts s (piece (trim (take k s)) ++ rest).

(** Sending the units in order, each as a reply to the same message, up to
    the first send that fails. *)
Fixpoint sendEach (chatId replyToMessageId : Z) (units : list str)
  : M unit :=
  match units with
  | [] => ret tt
  | chunk :: rest =>
      await (SendMessage chatId chunk replyToMessageId (lit "MarkdownV2"));;
      sendEach chatId replyToMessageId rest
  end.

(** Retirement follows delivery, said of a run of [processJob] with
    outcome [res] and trace [t]: a refused delivery is the outcome and
    nothing is retired; a rename is that of the job file, after the working
    indicator and every unit, and is followed by the clean-up of the
    link. *)
Definition Retires (P : Platform) (scanDir jobName : str)
    (res : Outcome unit) (t : Trace) : Prop :=
  (forall ev e, ev ∈ t -> deliveryThrew ev = Some e ->
     res = Threw e /\ Forall (fun ev => isRetirement ev = false) t)
  /\ (forall pre from to rr post,
        t = pre ++ Performed (Rename from to) rr :: post ->
        from = path_join P [scanDir; jobName] /\
        to = path_join P [getJobDir P jobName; jobName] /\
        (exists metaText logText meta units,
            parseMeta P metaText = Returned meta /\
            jobOutput logText ≠ [] /\
            Cuts (convert P (jobOutput logText)) units /\
            pre = Performed (ReadTextFile (getJobMeta P jobName))
                    (Returned metaText)
                  :: Performed (ReadTextFile (path_join P [scanDir; jobName]))
                       (Returned logText)
                  :: Performed (SendChatAction (chatId meta) (lit "typing"))
                       (Returned tt)
                  :: (sent (chatId meta) (messageId meta) <$> units)) /\
        match rr with
        | Threw e => res = Threw e /\ post = []
        | Returned _ =>
            res = Returned tt /\
            exists rl rm line,
              post = Performed (Lstat (path_join P [DATA_DIR P;
                                                    jobName ++ lit ".d"])) rl
                     :: (if linkIsSymlink rl
                         then [Performed
                                 (Remove (path_join P [DATA_DIR P;
                                                       jobName ++ lit ".d"])
                                    false) rm]
                         else [])
                     ++ [ConsoleLog line]
        end).

End Spec.

Import Spec.

(** ** Sample worlds and messages *)

Module Sample.

Definition SLASH : char := 47%N.

Definition sampleMeta : JobMeta :=
  {| channel := lit "telegram"; chatId := 123; messageId := 456;
     userId := None |}.

(** A POSIX-like platform in which [convert] leaves plain text as it is. *)
Definition platform : Platform :=
  {| path_join := join [SLASH];
     basename := fun p => default [] (last (split SLASH p));
     dirname := fun p => join [SLASH] (removelast (split SLASH p));
     convert := fun s => s;
     DATA_DIR := lit "/data";
     QUEUE_DIR := lit "/queue";
     execPath := lit "/usr/bin/deno";
     moduleDir := lit "/app";
     stringifyMeta := fun m =>
       lit "{chatId:" ++ ofZ (chatId m) ++ lit ",messageId:"
       ++ ofZ (messageId m) ++ lit ",userId:" ++ ofOptZ (userId m)
       ++ lit "}";
     parseMeta := fun s =>
       if bool_decide (s = lit "{meta}") then Returned sampleMeta
       else Threw (Error (lit "Invalid type")) |}.

(** The same with a [convert] that ends its output with a newline, as the
    expected message of the test 'sends output as reply' does. *)
Definition platformNL : Platform :=
  {| path_join := path_join platform;
     basename := basename platform;
     dirname := dirname platform;
     convert := fun s => s ++ [NL];
     DATA_DIR := DATA_DIR platform;
     QUEUE_DIR := QUEUE_DIR platform;
     execPath := execPath platform;
     moduleDir := moduleDir platform;
     stringifyMeta := stringifyMeta platform;
     parseMeta := parseMeta platform |}.

(** A world in which every call succeeds; [files] is what can be read. *)
Definition calm (files : list (str * str)) : Oracle :=
  fun ty _ c =>
    match c in Call ty return Outcome (El ty) with
    | ReplyWithChatAction _ => Returned tt
    | Mkdir _ _ _ => Returned tt
    | Remove _ _ => Returned tt
    | GetFile _ => Returned (Some (lit "documents/file_1.pdf"))
    | Fetch _ => Returned {| ok := true; status := 200;
                             statusText := lit "OK" |}
    | ArrayBuffer _ => Returned [37; 80; 68; 70]%N
    | WriteFile _ _ => Returned tt
    | WriteTextFile _ _ => Returned tt
    | ReadTextFile path =>
        match assoc path files with
        | Some s => Returned s
        | None => Threw (Error (lit "NotFound"))
        end
    | RunCommand _ _ _ _ =>
        Returned {| success := true; stdout := lit ",19a2b3c4d5e.4242";
                    stderr := [] |}
    | Symlink _ _ => Returned tt
    | Rename _ _ => Returned tt
    | Lstat _ => Returned {| isSymlink := true |}
    | Stat _ => Returned tt
    | ReadDir _ => Returned []
    | WatchFs _ => Returned tt
    | SendChatAction _ _ => Returned tt
    | SendMessage _ _ _ _ => Returned tt
    end.

(** [failing bad o]: the world [o] in which the calls in [bad] throw. *)
Definition failing (bad : forall ty, Call ty -> bool) (o : Oracle)
  : Oracle :=
  fun ty t c =>
    if bad ty c then Threw (Error (lit "failed")) else o ty t c.

Definition isAck ty (c : Call ty) : bool :=
  match c with ReplyWithChatAction _ => true | _ => false end.

Definition isSymlinkCall ty (c : Call ty) : bool :=
  match c with Symlink _ _ => true | _ => false end.

Definition isSendMessage ty (c : Call ty) : bool :=
  match c with SendMessage _ _ _ _ => true | _ => false end.

Definition allowedIds : gset str := {[ lit "123" ]}.

Definition sender (id : Z) : option User :=
  Some {| from_id := Some id; username := Some (lit "user") |}.

(** The message of the test 'queues valid message'. *)
Definition hello : IngressContext :=
  {| from := sender 123;
     chat := Some {| chat_id := Some 456 |};
     message := Some
       {| message_id := Some 789; text := Some (lit "hello");
          caption := None; photo := None; document := None; audio := None;
          voice := None; video := false; sticker := false;
          reply_to_message := None |} |}.

(** The same message from a sender outside the allow-list. *)
Definition stranger : IngressContext :=
  {| from := sender 999; chat := chat hello; message := message hello |}.

(** A reply to an earlier message, with a document attached. *)
Definition replyWithDocument : IngressContext :=
  {| from := sender 123;
     chat := Some {| chat_id := Some 456 |};
     message := Some
       {| message_id := Some 789; text := Some (lit "hello");
          caption := None; photo := None;
          document := Some {| file_id := lit "F1";
                              file_name := Some (lit "report.pdf");
                              mime_type := Some (lit "application/pdf") |};
          audio := None; voice := None; video := false; sticker := false;
          reply_to_message := Some {| quoted_text := Some (lit "earlier");
                                      quoted_caption := None |} |} |}.

Definition token : str := lit "mock-token".

(** The long output of the test 'splits long output into multiple
    messages'. *)
Definition As : str := replicate 4000 65%N.
Definition Bs : str := replicate 1000 66%N.
Definition longOutput : str := As ++ [NL] ++ Bs.

(** Job files as [nq] leaves them: a command line, the output, a status
    line. *)
Definition wrapped : str :=
  lit "exec deno task --quiet cli dispatch --id telegram:456_789" ++ [NL]
  ++ lit "hello" ++ [NL] ++ lit "world" ++ [NL]
  ++ lit "[exited with status 0.]" ++ [NL].

Definition twoLines : str := lit "line1" ++ [NL] ++ lit "line2".

Definition blankInside : str :=
  lit "exec deno task" ++ [NL] ++ lit "   " ++ [NL]
  ++ lit "[exited with status 0.]".

Definition scanDir : str := lit "/queue/completed".
Definition jobName : str := lit ",19a2b3c4d5e.4242".
Definition metaPath : str := lit "/data/,19a2b3c4d5e.4242.d/meta.json".
Definition logPath : str := lit "/queue/completed/,19a2b3c4d5e.4242".

(** A calm world holding the metadata and the given job file. *)
Definition withJob (logText : str) : Oracle :=
  calm [(metaPath, lit "{meta}"); (logPath, logText)].

End Sample.

(** ** Further notions, for the properties of the second part *)

Module More.

(** [a] then [b] is a non-decreasing pair in code-unit order: [b] does not
    come before [a]. *)
Definition notAfter (a b : str) : Prop := ltb b a = false.

(** The characters of a text that are not white space, in order. *)
Definition ink (s : str) : str := filter (fun c => isWhite c = false) s.

(** A decimal digit or the minus sign. *)
Definition isNumeral (c : char) : bool :=
  ((48 <=? c) && (c <=? 57) || (c =? 45))%N.

Definition COLON : char := 58%N.
Definition UNDERSCORE : char := 95%N.

(** The chat that a delivery call addresses and, for a message, the
    message it replies to. *)
Definition deliveryTarget (ev : Event) : option (Z * option Z) :=
  match ev with
  | Performed (SendChatAction c _) _ => Some (c, None)
  | Performed (SendMessage c _ r _) _ => Some (c, Some r)
  | _ => None
  end.

(** The event is a call, not a log line. *)
Definition isCall (ev : Event) : bool :=
  match ev with
  | Performed _ _ => true
  | _ => false
  end.

(** The event is a [Deno.stat] probe. *)
Definition isStatEvent (ev : Event) : bool :=
  match ev with
  | Performed (Stat _) _ => true
  | _ => false
  end.

(** The event is the submission of a job to nq. *)
Definition isSubmission (ev : Event) : bool :=
  match ev with
  | Performed (RunCommand _ _ _ _) _ => true
  | _ => false
  end.

(** Neither a submission nor a link. *)
Definition isStaging (ev : Event) : Prop :=
  isSubmission ev = false /\ isSymlinkEvent ev = false.

(** The delivery calls among the events address the chat of [meta], and
    the messages reply to its message. *)
Definition routed (meta : JobMeta) (ev : Event) : Prop :=
  forall c rt, deliveryTarget ev = Some (c, rt) ->
    c = chatId meta /\ (rt = None \/ rt = Some (messageId meta)).

(** The path of a file that the event wrote: a [Deno.writeFile] that
    returned. *)
Definition writtenPath (ev : Event) : option str :=
  match ev with
  | Performed (WriteFile path _) (Returned _) => Some path
  | _ => None
  end.

(** [listing entries o]: the world [o] in which every directory lists
    [entries]. *)
Definition listing (entries : list DirEntry) (o : Oracle) : Oracle :=
  fun ty t c =>
    match c in Call ty' return Outcome (El ty') -> Outcome (El ty') with
    | ReadDir _ => fun _ => Returned entries
    | _ => fun r => r
    end (o ty t c).

End More.

Import More.

(** ** Dispatch: where the prompt comes from (lines 602-635) *)

Module Dispatch.

(** The three sources of [prompt] in [dispatch]: standard input (trimmed
    by the caller), the [prompt.txt] of a stored message, or the arguments
    themselves. *)
Inductive PromptSource :=
| FromStdin
| FromFile (promptPath : str)
| Verbatim (prompt : str).

(** [args.includes(x)]. *)
Definition includes (x : str) (args : list str) : bool :=
  bool_decide (x ∈ args).

(** [args.indexOf(x)], as a position in [args]; only used when [x] is
    included. *)
Fixpoint indexOfArg (x : str) (args : list str) : nat :=
  match args with
  | [] => 0
  | a :: args' => if bool_decide (a = x) then 0 else S (indexOfArg x args')
  end.

(** A value that may be [undefined] is falsy when undefined or empty. *)
Definition defined (v : option str) : bool :=
  match v with
  | Some s => truthy s
  | None => false
  end.

Section WithPlatform.

Variable P : Platform.

(** The branches of lines 604-635 up to the reads: the source of the
    prompt, or the first line printed before [Deno.exit(1)].  Reading
    standard input or the file, a failing read, and running the agent are
    left out. *)
Definition dispatchSource (args : list str) : str + PromptSource :=
  if includes (lit "--stdin") args then inr FromStdin
  else if includes (lit "--id") args then
    let idx := indexOfArg (lit "--id") args in
    let fullId := args !! (idx + 1)%nat in
    if negb (defined fullId) then
      inl (lit "Error: --id requires a <channel>:<id>.")
    else
      let parts := split COLON (default [] fullId) in
      let channel := parts !! 0%nat in
      let id := parts !! 1%nat in
      if negb (defined channel) || negb (defined id) then
        inl (lit "Error: --id format must be <channel>:<id>.")
      else
        inr (FromFile
               (path_join P [getMessageDir P (default [] channel)
                               (default [] id);
                             lit "prompt.txt"]))
  else
    let prompt := join (lit " ") args in
    if negb (truthy prompt) then inl (lit "Error: no message provided.")
    else inr (Verbatim prompt).

End WithPlatform.

End Dispatch.

Import Dispatch.

(** * Properties *)

(** ** String primitives *)

Section StringFacts.

Implicit Types (c x : char) (s l : str).

Lemma trimStart_length s : (length (trimStart s) <= length s)%nat.
Proof. induction s as [|x s IH]; simpl; [lia|]. destruct (isWhite x); simpl; lia. Qed.

Lemma trimEnd_length s : (length (trimEnd s) <= length s)%nat.
Proof.
  unfold trimEnd. rewrite length_rev.
  etrans; [apply trimStart_length|]. by rewrite length_rev.
Qed.

Lemma trim_length s : (length (trim s) <= length s)%nat.
Proof.
  unfold trim. etrans; [apply trimEnd_length|]. apply trimStart_length.
Qed.

Lemma trimStart_white x s :
  isWhite x = true -> (length (trimStart (x :: s)) < length (x :: s))%nat.
Proof. intros H. simpl. rewrite H. pose proof (trimStart_length s). lia. Qed.

(** What [trimStart] leaves does not start with white space. *)
Lemma trimStart_head s :
  match trimStart s with x :: _ => isWhite x = false | [] => True end.
Proof.
  induction s as [|x s IH]; simpl; [done|].
  destruct (isWhite x) eqn:E; [done|]. exact E.
Qed.

Lemma trimStart_id s :
  match s with x :: _ => isWhite x = false | [] => True end ->
  trimStart s = s.
Proof. destruct s as [|x s]; simpl; [done|]. by intros ->. Qed.

Lemma trimStart_idem s : trimStart (trimStart s) = trimStart s.
Proof. apply trimStart_id, trimStart_head. Qed.

Lemma trimEnd_idem s : trimEnd (trimEnd s) = trimEnd s.
Proof. unfold trimEnd. by rewrite rev_involutive, trimStart_idem. Qed.

(** [trimStart] keeps a suffix, so trimming the end commutes with it. *)
Lemma trimStart_suffix s : exists p, s = p ++ trimStart s /\ forallb isWhite p = true.
Proof.
  induction s as [|x s [p [IH1 IH2]]]; simpl; [by exists []|].
  destruct (isWhite x) eqn:E.
  - exists (x :: p). simpl. rewrite E, IH2. split; [by f_equal|done].
  - by exists [].
Qed.

Lemma trim_idem s : trim (trim s) = trim s.
Proof.
  unfold trim.
  assert (H : trimStart (trimEnd (trimStart s)) = trimEnd (trimStart s)).
  { set (u := trimStart s). pose proof (trimStart_head s) as Hh. fold u in Hh.
    unfold trimEnd.
    destruct (trimStart (rev u)) as [|y r] eqn:Er; [done|].
    destruct u as [|x u']; [done|].
    (* rev (x :: u') = w ++ y :: r with w white: x survives at the end *)
    destruct (trimStart_suffix (rev (x :: u'))) as [p [Hp Hw]].
    rewrite Er in Hp. apply (f_equal (@rev _)) in Hp.
    rewrite rev_involutive, rev_app_distr in Hp.
    apply trimStart_id.
    destruct (rev (y :: r)) as [|z q] eqn:Eq.
    - apply (f_equal (@length _)) in Eq. rewrite length_rev in Eq. done.
    - simpl in Hp. by injection Hp as <- _. }
  by rewrite H, trimEnd_idem.
Qed.

Lemma len_nonneg s : 0 <= len s.
Proof. unfold len. lia. Qed.

(** *** [indexOf] *)

Lemma indexOf_from_none c s i : c ∉ s -> indexOf_from c s i = -1.
Proof.
  revert i. induction s as [|x s IH]; intros i H; simpl; [done|].
  apply not_elem_of_cons in H as [H1 H2].
  destruct (N.eqb_spec x c); [congruence|]. auto.
Qed.

Lemma indexOf_from_first c l s i :
  c ∉ l -> indexOf_from c (l ++ c :: s) i = i + len l.
Proof.
  revert i. induction l as [|x l IH]; intros i H; simpl.
  - rewrite N.eqb_refl. unfold len. simpl. lia.
  - apply not_elem_of_cons in H as [H1 H2].
    destruct (N.eqb_spec x c); [congruence|].
    rewrite IH by done. unfold len. simpl length. lia.
Qed.

(** *** [lastIndexOf] *)

Lemma lastIndexOf_from_none c s i pos acc :
  c ∉ s -> lastIndexOf_from c s i pos acc = acc.
Proof.
  revert i acc. induction s as [|x s IH]; intros i acc H; simpl; [done|].
  apply not_elem_of_cons in H as [H1 H2].
  destruct (N.eqb_spec x c); [congruence|]. simpl. auto.
Qed.

Lemma lastIndexOf_from_app c s1 s2 i pos acc :
  lastIndexOf_from c (s1 ++ s2) i pos acc
  = lastIndexOf_from c s2 (i + len s1) pos (lastIndexOf_from c s1 i pos acc).
Proof.
  revert i acc. induction s1 as [|x s1 IH]; intros i acc; simpl.
  - unfold len. simpl. by rewrite Z.add_0_r.
  - rewrite IH. f_equal. unfold len. simpl length. lia.
Qed.

(** The scan returns either the accumulator, no admissible index holding
    [c], or the greatest admissible index holding [c]. *)
Lemma lastIndexOf_from_spec c s i pos acc :
  let r := lastIndexOf_from c s i pos acc in
  (r = acc /\
   forall j : nat, i + Z.of_nat j <= pos -> s !! j ≠ Some c)
  \/ (exists j : nat,
        r = i + Z.of_nat j /\ s !! j = Some c /\ i + Z.of_nat j <= pos /\
        forall j' : nat, (j < j')%nat -> i + Z.of_nat j' <= pos ->
                         s !! j' ≠ Some c).
Proof.
  revert i acc. induction s as [|x s IH]; intros i acc; simpl.
  - left. split; [done|]. intros j _. by destruct j.
  - specialize (IH (i + 1)
      (if (x =? c)%N && (i <=? pos) then i else acc)).
    simpl in IH. destruct IH as [[Hr Hn]|[j (Hr & Hj & Hle & Hn)]].
    + rewrite Hr.
      destruct (N.eqb_spec x c) as [->|Hxc];
        destruct (Z.leb_spec i pos) as [Hip|Hip]; simpl.
      * right. exists 0%nat. split_and!; [lia|done|lia|].
        intros [|j'] Hlt Hle; [lia|]. simpl. apply Hn. lia.
      * left. split; [done|]. intros [|j] Hle; [lia|]. simpl. apply Hn. lia.
      * left. split; [done|]. intros [|j] Hle; simpl; [congruence|].
        apply Hn. lia.
      * left. split; [done|]. intros [|j] Hle; simpl; [congruence|].
        apply Hn. lia.
    + right. exists (S j). split_and!; [lia|done|lia|].
      intros [|j'] Hlt Hle'; [lia|]. simpl. apply Hn; lia.
Qed.

(** Without a position, the index of the last occurrence. *)
Lemma lastIndexOf_last c s l :
  c ∉ l -> lastIndexOf c (s ++ c :: l) None = len s.
Proof.
  intros H. unfold lastIndexOf. rewrite lastIndexOf_from_app. simpl.
  rewrite N.eqb_refl. simpl.
  rewrite lastIndexOf_from_none by done.
  destruct (Z.leb_spec (0 + len s) (Z.max (len (s ++ c :: l)) 0))
    as [_|Hlt]; [lia|].
  unfold len in Hlt. rewrite length_app in Hlt. lia.
Qed.

(** *** [slice] *)

Lemma slice_middle (a b d : str) :
  slice (a ++ b ++ d) (len a) (Some (len a + len b)) = b.
Proof.
  unfold slice, relIndex, len. rewrite !length_app.
  destruct (Z.ltb_spec (Z.of_nat (length a)) 0) as [?|_]; [lia|].
  destruct (Z.ltb_spec (Z.of_nat (length a) + Z.of_nat (length b)) 0)
    as [?|_]; [lia|].
  rewrite !Z.min_l by lia.
  replace (Z.to_nat (Z.of_nat (length a))) with (length a) by lia.
  rewrite drop_app_length.
  replace (Z.to_nat _) with (length b) by lia.
  by rewrite take_app_length.
Qed.

Lemma slice_prefix s (k : Z) :
  0 <= k -> slice s 0 (Some k) = take (Z.to_nat k) s.
Proof.
  intros Hk. unfold slice, relIndex. simpl.
  destruct (Z.ltb_spec k 0) as [?|_]; [lia|].
  pose proof (len_nonneg s).
  rewrite (Z.min_l 0) by done. rewrite drop_0.
  destruct (Z.le_gt_cases k (len s)).
  - rewrite Z.min_l by done. f_equal. lia.
  - rewrite Z.min_r by lia. unfold len in *.
    rewrite !take_ge; [done|lia|lia].
Qed.

Lemma slice_suffix s (k : Z) :
  0 <= k -> slice s k None = drop (Z.to_nat k) s.
Proof.
  intros Hk. unfold slice, relIndex.
  destruct (Z.ltb_spec k 0) as [?|_]; [lia|].
  destruct (Z.le_gt_cases k (len s)).
  - rewrite Z.min_l by done. apply take_ge. rewrite length_drop.
    unfold len in *. lia.
  - rewrite Z.min_r by lia. unfold len in *.
    rewrite take_ge; [|rewrite length_drop; lia].
    rewrite !drop_ge; [done|lia|lia].
Qed.

(** *** [split] and [join] *)

Lemma split_cons c s : exists l ls, split c s = l :: ls.
Proof.
  induction s as [|x s (l & ls & IH)]; simpl; [by eexists _, _|].
  destruct (x =? c)%N; [by eexists _, _|]. rewrite IH. by eexists _, _.
Qed.

Lemma split_no_sep c s : Forall (fun l => c ∉ l) (split c s).
Proof.
  induction s as [|x s IH]; simpl.
  - constructor; [apply not_elem_of_nil|constructor].
  - destruct (N.eqb_spec x c) as [->|Hxc].
    + constructor; [apply not_elem_of_nil|done].
    + destruct (split c s) as [|l ls].
      { constructor; [|constructor].
        apply not_elem_of_cons. split; [congruence|apply not_elem_of_nil]. }
      inversion IH; subst. constructor; [|done].
      apply not_elem_of_cons. split; [congruence|done].
Qed.

Lemma join_split c s : join [c] (split c s) = s.
Proof.
  induction s as [|x s IH]; simpl; [done|].
  destruct (N.eqb_spec x c) as [->|Hxc].
  - destruct (split_cons c s) as (l & ls & E). rewrite E in *.
    simpl. simpl in IH. by rewrite IH.
  - destruct (split c s) as [|l [|l' ls]]; simpl in *; by subst.
Qed.

Lemma join_snoc (sep : str) (xs : list str) (x y : str) :
  join sep ((x :: xs) ++ [y]) = join sep (x :: xs) ++ sep ++ y.
Proof.
  revert x. induction xs as [|z xs IH]; intros x; [done|].
  change (join sep ((x :: z :: xs) ++ [y]))
    with (x ++ sep ++ join sep ((z :: xs) ++ [y])).
  rewrite IH. change (join sep (x :: z :: xs))
    with (x ++ sep ++ join sep (z :: xs)).
  by rewrite <- !app_assoc.
Qed.

End StringFacts.

(** ** Output stripping *)

Section Stripping.

(** A text of one line has no newline; [jobOutput] keeps it. *)
Lemma strip_one_line raw l :
  lines raw = [l] ->
  indexOf NL raw = -1.
Proof.
  intros E. pose proof (join_split NL raw) as J.
  pose proof (split_no_sep NL raw) as F. unfold lines in E.
  rewrite E in J, F. simpl in J. subst l.
  apply indexOf_from_none. by inversion F.
Qed.

Lemma strip_two_lines raw l1 l2 :
  lines raw = [l1; l2] ->
  indexOf NL raw = len l1 /\ lastIndexOf NL raw None = len l1.
Proof.
  intros E. pose proof (join_split NL raw) as J.
  pose proof (split_no_sep NL raw) as F. unfold lines in E.
  rewrite E in J, F. simpl in J. subst raw.
  inversion F as [|? ? F1 F']; subst. inversion F' as [|? ? F2 _]; subst.
  split.
  - unfold indexOf. by rewrite indexOf_from_first.
  - by apply lastIndexOf_last.
Qed.

Lemma strip_more_lines raw l1 l2 l3 ls :
  lines raw = l1 :: l2 :: l3 :: ls ->
  let mid := join [NL] (interiorLines (l1 :: l2 :: l3 :: ls)) in
  indexOf NL raw = len l1 /\
  lastIndexOf NL raw None = len l1 + 1 + len mid /\
  slice raw (len l1 + 1) (Some (len l1 + 1 + len mid)) = mid.
Proof.
  intros E mid. pose proof (join_split NL raw) as J.
  pose proof (split_no_sep NL raw) as F. unfold lines in E.
  rewrite E in J, F.
  destruct (exists_last (l := l3 :: ls)) as (ms & ln & Els); [done|].
  assert (Hmid : mid = join [NL] (l2 :: ms)).
  { unfold mid, interiorLines. simpl tail. rewrite Els.
    change (l2 :: ms ++ [ln]) with ((l2 :: ms) ++ [ln]).
    by rewrite removelast_last. }
  assert (Hraw : raw = l1 ++ NL :: mid ++ NL :: ln).
  { rewrite <- J. rewrite Els.
    change (join [NL] (l1 :: l2 :: ms ++ [ln]))
      with (l1 ++ [NL] ++ join [NL] ((l2 :: ms) ++ [ln])).
    by rewrite join_snoc, Hmid. }
  clear J E. clearbody mid.
  inversion F as [|? ? F1 F']; subst l x.
  assert (Fn : NL ∉ ln).
  { rewrite Els in F'. inversion F' as [|? ? _ F'']; subst.
    apply Forall_app in F'' as [_ F3]. by inversion F3. }
  subst raw. split_and!.
  - unfold indexOf. by rewrite indexOf_from_first.
  - replace (l1 ++ NL :: mid ++ NL :: ln)
      with ((l1 ++ NL :: mid) ++ NL :: ln) by (by rewrite <- app_assoc).
    rewrite lastIndexOf_last by done.
    unfold len. rewrite length_app. simpl length. lia.
  - replace (len l1 + 1) with (len (l1 ++ [NL]))
      by (unfold len; rewrite length_app; simpl; lia).
    replace (l1 ++ NL :: mid ++ NL :: ln)
      with ((l1 ++ [NL]) ++ mid ++ NL :: ln)
      by (by rewrite <- app_assoc).
    apply slice_middle.
Qed.

(** The source's index arithmetic computes the specification's stripping. *)
Lemma jobOutput_stripped logText : jobOutput logText = strippedOutput logText.
Proof.
  unfold jobOutput, strippedOutput.
  set (raw := trim logText).
  destruct (lines raw) as [|l1 [|l2 [|l3 ls]]] eqn:E.
  - unfold lines in E. destruct (split_cons NL raw) as (? & ? & E').
    congruence.
  - rewrite (strip_one_line _ _ E). done.
  - destruct (strip_two_lines _ _ _ E) as [-> ->].
    rewrite Z.eqb_refl. simpl. by rewrite andb_false_r.
  - destruct (strip_more_lines _ _ _ _ _ E) as (-> & -> & ->).
    pose proof (len_nonneg l1).
    pose proof (len_nonneg
                  (join [NL] (interiorLines (l1 :: l2 :: l3 :: ls)))).
    destruct (Z.eqb_spec (len l1) (-1)); [lia|].
    destruct (Z.eqb_spec (len l1)
      (len l1 + 1 + len (join [NL] (interiorLines (l1 :: l2 :: l3 :: ls)))));
      [lia|].
    done.
Qed.

End Stripping.

(** ** The effect monad *)

Section Effects.

Context {A B : Type}.

Lemma bind_assoc {C} (m : M A) (f : A -> M B) (g : B -> M C) o t :
  bind (bind m f) g o t = bind m (fun a => bind (f a) g) o t.
Proof. unfold bind. by destruct (m o t) as [[a|e] t']. Qed.

Lemma bind_ext (m : M A) (f g : A -> M B) :
  (forall a o t, f a o t = g a o t) ->
  forall o t, bind m f o t = bind m g o t.
Proof. intros H o t. unfold bind. by destruct (m o t) as [[a|e] t']. Qed.

End Effects.

Lemma Performed_inj {ty} (c c' : Call ty) r r' :
  Performed c r = Performed c' r' -> c = c' /\ r = r'.
Proof.
  intros H. inversion H as [[Hc Hr]].
  by apply (inj_pair2_eq_dec _ Ty_eq_dec) in Hc, Hr.
Qed.

Section Emission.

Context (Q : Event -> Prop).

Lemma Emits_ret {A} (a : A) : Emits Q (ret a).
Proof. intros o t. exists []. simpl. by rewrite app_nil_r. Qed.

Lemma Emits_throw {A} e : Emits Q (@throw A e).
Proof. intros o t. exists []. simpl. by rewrite app_nil_r. Qed.

Lemma Emits_settle {A} (r : Outcome A) : Emits Q (settle r).
Proof. intros o t. exists []. simpl. by rewrite app_nil_r. Qed.

Lemma Emits_await {ty} (c : Call ty) :
  (forall r, Q (Performed c r)) -> Emits Q (await c).
Proof. intros H o t. exists [Performed c (o ty t c)]. simpl. split; [done|]. by constructor. Qed.

Lemma Emits_consoleLog msg : Q (ConsoleLog msg) -> Emits Q (consoleLog msg).
Proof. intros H o t. exists [ConsoleLog msg]. split; [done|]. by constructor. Qed.

Lemma Emits_consoleError msg arg :
  Q (ConsoleError msg arg) -> Emits Q (consoleError msg arg).
Proof. intros H o t. exists [ConsoleError msg arg]. split; [done|]. by constructor. Qed.

Lemma Emits_bind {A B} (m : M A) (f : A -> M B) :
  Emits Q m -> (forall a, Emits Q (f a)) -> Emits Q (bind m f).
Proof.
  intros Hm Hf o t. unfold bind.
  destruct (Hm o t) as (evs & E & F).
  destruct (m o t) as [[a|e] t']; simpl in E; subst t'.
  - destruct (Hf a o (t ++ evs)) as (evs' & E' & F').
    exists (evs ++ evs'). rewrite E', app_assoc. split; [done|].
    by apply Forall_app.
  - by exists evs.
Qed.

Lemma Emits_tryCatch {A} (m : M A) h :
  Emits Q m -> (forall e, Emits Q (h e)) -> Emits Q (tryCatch m h).
Proof.
  intros Hm Hh o t. unfold tryCatch.
  destruct (Hm o t) as (evs & E & F).
  destruct (m o t) as [[a|e] t']; simpl in E; subst t'.
  - by exists evs.
  - destruct (Hh e o (t ++ evs)) as (evs' & E' & F').
    exists (evs ++ evs'). rewrite E', app_assoc. split; [done|].
    by apply Forall_app.
Qed.

End Emission.

(** ** Chunked delivery *)

Section Chunking.

Lemma splitIndexOf_spec rem :
  exists k : nat, splitIndexOf rem = Z.of_nat k /\ SplitPoint rem k.
Proof.
  unfold splitIndexOf, lastIndexOf. simpl default.
  pose proof (lastIndexOf_from_spec NL rem 0 (Z.max MAX_LENGTH 0) (-1)) as H.
  simpl in H. change (Z.max MAX_LENGTH 0) with 4096 in *.
  destruct H as [[-> Hn]|(j & -> & Hj & Hle & Hn)].
  - exists 4096%nat. split; [done|]. right. split; [done|].
    intros j Hj. apply Hn. lia.
  - destruct (Z.eqb_spec (0 + Z.of_nat j) (-1)); [lia|].
    exists j. split; [lia|]. left. split_and!; [done|lia|].
    intros j' Hj'. apply Hn; lia.
Qed.

Lemma SplitPoint_le s k : SplitPoint s k -> (k <= 4096)%nat.
Proof. intros [(_ & H & _)|[-> _]]; lia. Qed.

Lemma SplitPoint_unique s k k' : SplitPoint s k -> SplitPoint s k' -> k = k'.
Proof.
  intros [(H1 & H2 & H3)|[-> H1]] [(H1' & H2' & H3')|[-> H1']]; try done.
  - destruct (Nat.lt_trichotomy k k') as [?|[?|?]]; [|done|].
    + exfalso. by apply (H3 k').
    + exfalso. by apply (H3' k).
  - exfalso. by apply (H1' k).
  - exfalso. by apply (H1 k').
Qed.

(** A cut shortens the text that remains: the loop comes to its exit. *)
Lemma split_shrinks rem k :
  4096 < len rem -> SplitPoint rem k ->
  (length (trim (drop k rem)) < length rem)%nat.
Proof.
  intros Hlen Hk. unfold len in Hlen.
  destruct k as [|k].
  - destruct Hk as [(H0 & _)|[? _]]; [|done].
    destruct rem as [|x rem]; [done|]. simpl in H0. injection H0 as ->.
    rewrite drop_0. unfold trim.
    eapply Nat.le_lt_trans; [apply trimEnd_length|].
    by apply trimStart_white.
  - eapply Nat.le_lt_trans; [apply trim_length|].
    rewrite length_drop. lia.
Qed.

Lemma whileLoop_exit fuel chatId replyTo rem :
  len rem <= 4096 -> whileLoop fuel chatId replyTo rem = ret (Some rem).
Proof.
  intros H. destruct fuel; simpl;
    by destruct (Z.ltb_spec MAX_LENGTH (len rem)) as [?|_];
      [unfold MAX_LENGTH in *; lia|].
Qed.

Lemma whileLoop_step fuel chatId replyTo rem :
  4096 < len rem ->
  whileLoop (S fuel) chatId replyTo rem =
  bind (if truthy (trim (slice rem 0 (Some (splitIndexOf rem))))
        then await (SendMessage chatId
                      (trim (slice rem 0 (Some (splitIndexOf rem))))
                      replyTo MarkdownV2)
        else ret tt)
    (fun _ => whileLoop fuel chatId replyTo
                (trim (slice rem (splitIndexOf rem) None))).
Proof.
  intros H. simpl.
  by destruct (Z.ltb_spec MAX_LENGTH (len rem)) as [_|?];
    [|unfold MAX_LENGTH in *; lia].
Qed.

(** With as many iterations as the text has characters the loop reaches
    its exit (or a send throws): it leaves a text within the limit. *)
Lemma whileLoop_exits fuel : forall rem,
  (length rem <= fuel)%nat ->
  forall chat reply o t,
    (exists e, fst (whileLoop fuel chat reply rem o t) = Threw e)
    \/ (exists left,
          fst (whileLoop fuel chat reply rem o t) = Returned (Some left)
          /\ len left <= 4096).
Proof.
  induction fuel as [|fuel IH]; intros rem Hfuel chat reply o t.
  - right. exists rem. assert (Hl : len rem <= 4096) by (unfold len; lia).
    by rewrite whileLoop_exit.
  - destruct (Z.le_gt_cases (len rem) 4096) as [Hl|Hl].
    { right. exists rem. by rewrite whileLoop_exit. }
    destruct (splitIndexOf_spec rem) as (k & Ek & Hk).
    pose proof (split_shrinks rem k Hl Hk) as Hs.
    rewrite whileLoop_step by done. rewrite Ek.
    rewrite slice_prefix, slice_suffix by lia. rewrite Nat2Z.id.
    unfold bind.
    destruct ((if truthy (trim (take k rem))
               then await (SendMessage chat (trim (take k rem)) reply
                             MarkdownV2)
               else ret ()) o t) as [[[]|e] t'].
    + apply IH. lia.
    + left. by exists e.
Qed.

(** The loop and the final send of [sendSplitMessage] deliver the units of
    the text, and [fuel] iterations are enough when [fuel] is the length of
    the text. *)
Lemma whileLoop_cuts fuel : forall rem,
  (length rem <= fuel)%nat ->
  exists units, Cuts rem units /\
    forall chatId replyTo o t,
      bind (whileLoop fuel chatId replyTo rem)
        (fun left =>
           match left with
           | Some remaining =>
               if truthy remaining
               then await (SendMessage chatId remaining replyTo MarkdownV2)
               else ret tt
           | None => ret tt
           end) o t
      = sendEach chatId replyTo units o t.
Proof.
  induction fuel as [|fuel IH]; intros rem Hfuel.
  - exists (piece rem). assert (Hl : len rem <= 4096) by (unfold len; lia).
    split; [by constructor|]. intros. rewrite whileLoop_exit by done.
    unfold bind, ret, piece. destruct (truthy rem); simpl; [|done].
    unfold bind, await, ret. by destruct (o TUnit t _) as [[]|e].
  - destruct (Z.le_gt_cases (len rem) 4096) as [Hl|Hl].
    + exists (piece rem). split; [by constructor|].
      intros. rewrite whileLoop_exit by done.
      unfold bind, ret, piece. destruct (truthy rem); simpl; [|done].
      unfold bind, await, ret. by destruct (o TUnit t _) as [[]|e].
    + destruct (splitIndexOf_spec rem) as (k & Ek & Hk).
      pose proof (split_shrinks rem k Hl Hk) as Hs.
      destruct (IH (trim (drop k rem))) as (rest & Hrest & Hrun); [lia|].
      exists (piece (trim (take k rem)) ++ rest).
      split; [by econstructor|].
      intros cid rid o t. rewrite whileLoop_step by done. rewrite Ek.
      rewrite slice_prefix, slice_suffix by lia. rewrite Nat2Z.id.
      specialize (Hrun cid rid).
      unfold piece. destruct (truthy (trim (take k rem))); simpl.
      * rewrite bind_assoc. apply bind_ext. intros _. apply Hrun.
      * rewrite bind_assoc. apply Hrun.
Qed.

(** Every unit is non-empty and within the limit. *)
Lemma Cuts_bounds s units :
  Cuts s units -> Forall (fun c => 0 < len c <= 4096) units.
Proof.
  assert (Hp : forall c, len c <= 4096 ->
                         Forall (fun c => 0 < len c <= 4096) (piece c)).
  { intros c Hc. unfold piece. destruct c as [|x c]; simpl; [constructor|].
    constructor; [|constructor]. split; [|done]. unfold len. simpl. lia. }
  induction 1 as [s Hs|s k rest Hs Hk _ IH]; [by apply Hp|].
  apply Forall_app. split; [|done]. apply Hp.
  pose proof (trim_length (take k s)). pose proof (SplitPoint_le _ _ Hk).
  unfold len. rewrite length_take in *. lia.
Qed.

(** A text has one sequence of units. *)
Lemma Cuts_unique s u1 : Cuts s u1 -> forall u2, Cuts s u2 -> u1 = u2.
Proof.
  induction 1 as [s Hs|s k rest Hs Hk _ IH]; intros u2 H2.
  - inversion H2; subst; [done|lia].
  - inversion H2 as [|? k' rest' ? Hk' Hrest']; subst; [lia|].
    pose proof (SplitPoint_unique _ _ _ Hk Hk') as <-.
    f_equal. by apply IH.
Qed.

(** Units cut by the loop are trimmed; only a text that fits as a whole is
    sent untrimmed. *)
Lemma Cuts_trimmed s units :
  Cuts s units -> 4096 < len s -> Forall (fun c => trim c = c) units.
Proof.
  assert (Hp : forall c, Forall (fun c => trim c = c) (piece (trim c))).
  { intros c. unfold piece. destruct (truthy (trim c)); constructor;
      [apply trim_idem|constructor]. }
  assert (Ht : forall c units, Cuts (trim c) units ->
                               Forall (fun c => trim c = c) units).
  { intros c units0 H. remember (trim c) as s0 eqn:E.
    revert c E. induction H as [s0 Hs|s0 k rest Hs Hk _ IH]; intros c E.
    - subst s0. apply Hp.
    - apply Forall_app. split; [apply Hp|]. by eapply IH. }
  destruct 1 as [s Hs|s k rest Hs Hk Hrest]; intros Hl; [lia|].
  apply Forall_app. split; [apply Hp|]. by eapply Ht.
Qed.

End Chunking.

(** ** The ingress handler *)

Section Handler.

Variable P : Platform.
Variables (token : str) (allowedIds : gset str).

Lemma truthy_nonempty (s : str) : truthy s = true <-> s ≠ [].
Proof. by destruct s. Qed.

(** A sender outside the allow-list is turned away at the guard of line
    277: two log lines and nothing else. *)
Lemma handler_turns_away ctx :
  ~ senderAllowed allowedIds ctx ->
  exists line1 line2, forall o t,
    createIngressHandler P token allowedIds ctx o t
    = (Returned tt, t ++ [ConsoleLog line1; ConsoleLog line2]).
Proof.
  intros Hna. unfold createIngressHandler. cbv zeta.
  set (isAllowed := match from ctx ?. from_id with
                    | Some u => bool_decide (ofZ u ∈ allowedIds)
                    | None => false
                    end).
  assert (E : isAllowed = false).
  { unfold isAllowed. destruct (from ctx ?. from_id) as [u|] eqn:Eu; [|done].
    apply bool_decide_eq_false. intros Hin. apply Hna. by exists u. }
  rewrite E. simpl negb. rewrite orb_true_r. simpl.
  eexists _, _. intros o t. unfold bind, consoleLog.
  by rewrite <- app_assoc.
Qed.

(** An admitted message passes the guard: the arrival is logged, the chat
    is acknowledged, and the body runs inside the [try]. *)
Lemma handler_admits ctx c m :
  admitted allowedIds ctx c m ->
  exists line, forall o t,
    createIngressHandler P token allowedIds ctx o t
    = bind (await (ReplyWithChatAction (lit "typing")))
        (fun _ =>
           tryCatch
             (accepted P token (messageText ctx) (messageQuote ctx)
                (extractAttachments (message ctx)) c m (from ctx ?. from_id))
             reportError)
        o (t ++ [ConsoleLog line]).
Proof.
  intros ((u & Eu & Hu) & Ec & Em & Hcontent).
  unfold createIngressHandler. cbv zeta. rewrite Eu, Ec, Em.
  rewrite (bool_decide_eq_true_2 _ Hu).
  rewrite !(bool_decide_eq_true_2 (is_Some (Some _))) by done.
  simpl negb. simpl orb.
  assert (G : negb (truthy (messageText ctx))
              && (Z.of_nat (length (extractAttachments (message ctx))) =? 0)
              = false).
  { destruct Hcontent as [Ht|Ha].
    - apply truthy_nonempty in Ht. by rewrite Ht.
    - destruct (extractAttachments (message ctx)); [done|].
      apply andb_false_iff. right. apply Z.eqb_neq. simpl length. lia. }
  rewrite G. eexists. intros o t. unfold bind at 1. unfold consoleLog at 1.
  reflexivity.
Qed.

(** Either the guard turns the message away or the message is admitted. *)
Lemma handler_cases ctx :
  (exists line1 line2, forall o t,
      createIngressHandler P token allowedIds ctx o t
      = (Returned tt, t ++ [ConsoleLog line1; ConsoleLog line2]))
  \/ (exists c m, admitted allowedIds ctx c m).
Proof.
  destruct (from ctx ?. from_id) as [u|] eqn:Eu.
  2: { left. apply handler_turns_away. intros (u & Hu & _). congruence. }
  destruct (decide (ofZ u ∈ allowedIds)) as [Hin|Hout].
  2: { left. apply handler_turns_away. intros (u' & Hu & Hin). congruence. }
  destruct (chat ctx ?. chat_id) as [c|] eqn:Ec,
    (message ctx ?. message_id) as [m|] eqn:Em,
    (truthy (messageText ctx)) eqn:Et,
    (extractAttachments (message ctx)) as [|a atts] eqn:Ea;
    try (right; exists c, m; split_and!; [by exists u|done|done|];
         first [by left; apply truthy_nonempty
               | by right; rewrite Ea ]);
    left; unfold createIngressHandler; cbv zeta;
    rewrite ?Eu, ?Ec, ?Em, ?Et, ?Ea; simpl;
    rewrite ?orb_true_r; simpl;
    eexists _, _; intros o t; unfold bind, consoleLog;
    by rewrite <- app_assoc.
Qed.

Ltac emits :=
  repeat first
    [ apply Emits_ret | apply Emits_throw | apply Emits_settle
    | apply Emits_bind | apply Emits_tryCatch
    | apply Emits_await | apply Emits_consoleLog | apply Emits_consoleError
    | progress intros
    | done
    | match goal with
      | |- Emits _ (if ?b then _ else _) => destruct b
      | |- Emits _ (match ?x with _ => _ end) => destruct x
      end ].

Lemma downloadAttachment_emits fileId dir fileName :
  Emits (fun ev => isSymlinkEvent ev = false)
    (downloadAttachment P token fileId dir fileName).
Proof. unfold downloadAttachment. emits. Qed.

Lemma downloadAll_emits attachDir attachments : forall attachmentPaths,
  Emits (fun ev => isSymlinkEvent ev = false)
    (downloadAll P token attachDir attachments attachmentPaths).
Proof.
  induction attachments as [|attach rest IH]; intros paths; simpl; [emits|].
  apply Emits_bind; [|done].
  apply Emits_tryCatch; [|emits].
  apply Emits_bind; [apply downloadAttachment_emits|emits].
Qed.

Lemma stage_emits messageDir text attachments :
  Emits (fun ev => isSymlinkEvent ev = false)
    (stage P token messageDir text attachments).
Proof.
  unfold stage. destruct (0 <? _); [|emits].
  apply Emits_bind; [emits|]. intros _.
  apply Emits_bind; [apply downloadAll_emits|]. emits.
Qed.

Lemma enqueue_emits channel sourceId :
  Emits (fun ev => isSymlinkEvent ev = false) (enqueue P channel sourceId).
Proof. unfold enqueue. emits. Qed.

(** The run of the link and metadata commit, call by call. *)
Lemma commit_run messageDir jobFile c m uid o t :
  let jobLink := path_join P [DATA_DIR P; jobFile ++ lit ".d"] in
  let r1 := o TUnit t (Symlink messageDir jobLink) in
  let t1 :=
    t ++ Performed (Symlink messageDir jobLink) r1
      :: match r1 with
         | Threw err =>
             [ConsoleError (lit "[ingress] Failed to create symlink "
                            ++ jobLink ++ lit ":") (ErrArg err)]
         | Returned _ => []
         end in
  let w := WriteTextFile (path_join P [messageDir; lit "meta.json"])
             (stringifyMeta P {| channel := lit "telegram"; chatId := c;
                                 messageId := m; userId := uid |}) in
  let r2 := o TUnit t1 w in
  commit P messageDir jobFile c m uid o t
  = match r2 with
    | Returned _ =>
        (Returned tt,
         t1 ++ [Performed w r2;
                ConsoleLog (lit "[ingress] Queued: " ++ jobFile
                            ++ lit " from user " ++ ofOptZ uid)])
    | Threw e => (Threw e, t1 ++ [Performed w r2])
    end.
Proof.
  intros jobLink r1 t1 w r2.
  unfold commit, bind, tryCatch, await, consoleError, consoleLog.
  fold jobLink. fold r1. subst t1 r2 w.
  destruct r1 as [[]|err]; cbv beta iota zeta.
  - destruct (o TUnit _ (WriteTextFile _ _)) as [[]|e]; cbv beta iota zeta;
      by rewrite <- ?app_assoc.
  - rewrite <- !app_assoc.
    destruct (o TUnit _ (WriteTextFile _ _)) as [[]|e]; cbv beta iota zeta;
      by rewrite <- ?app_assoc.
Qed.

(** The body of the [try] starts with the creation of the message
    directory and performs no [symlink] before the commit. *)
Lemma accepted_run text quote attachments c m uid o t :
  let messageDir :=
    getMessageDir P (lit "telegram") (ofZ c ++ lit "_" ++ ofZ m) in
  exists r evs,
    Forall (fun ev => isSymlinkEvent ev = false) evs /\
    let t' := t ++ Performed (Mkdir messageDir true MODE) r :: evs in
    ((exists res, accepted P token text quote attachments c m uid o t
                  = (res, t'))
     \/ (exists jobFile,
           accepted P token text quote attachments c m uid o t
           = commit P messageDir jobFile c m uid o t')).
Proof.
  intros messageDir.
  remember (accepted P token text quote attachments c m uid o t) as k eqn:Hk.
  unfold accepted in Hk. fold messageDir in Hk.
  unfold bind at 1 in Hk. unfold await at 1 in Hk.
  set (r := o TUnit t (Mkdir messageDir true MODE)) in *. exists r.
  set (t1 := t ++ [Performed (Mkdir messageDir true MODE) r]) in *.
  assert (Ht : forall evs,
             t ++ Performed (Mkdir messageDir true MODE) r :: evs
             = t1 ++ evs).
  { intros evs. unfold t1. by rewrite <- app_assoc. }
  cbv zeta. setoid_rewrite Ht. clearbody t1 r. clear Ht.
  destruct r as [[]|e].
  2: { exists []. split; [done|]. left. eexists. by rewrite app_nil_r. }
  unfold bind at 1 in Hk.
  destruct (stage_emits messageDir text attachments o t1) as (evs1 & E1 & F1).
  destruct (stage P token messageDir text attachments o t1)
    as [[[paths|]|e] t2]; simpl in E1; subst t2.
  2,3: exists evs1; split; [done|]; left; by eexists.
  unfold bind at 1 in Hk. unfold await at 1 in Hk.
  set (r2 := o TUnit _ (ReplyWithChatAction _)) in *.
  set (ev2 := Performed (ReplyWithChatAction (lit "typing")) r2) in *.
  assert (F2 : isSymlinkEvent ev2 = false) by done.
  clearbody ev2. destruct r2 as [[]|e].
  2: { exists (evs1 ++ [ev2]). split.
       { apply Forall_app. split; [done|]. by repeat constructor. }
       left. eexists. by rewrite Hk, app_assoc. }
  unfold bind at 1 in Hk. unfold await at 1 in Hk.
  set (r3 := o TUnit _ (WriteTextFile _ _)) in *.
  set (ev3 := Performed (WriteTextFile _ _) r3) in *.
  assert (F3 : isSymlinkEvent ev3 = false) by done.
  clearbody ev3. destruct r3 as [[]|e].
  2: { exists (evs1 ++ [ev2; ev3]). split.
       { apply Forall_app. split; [done|]. by repeat constructor. }
       left. eexists. rewrite Hk. by rewrite <- !app_assoc. }
  unfold bind at 1 in Hk.
  set (t3 := ((t1 ++ evs1) ++ [ev2]) ++ [ev3]) in *.
  destruct (enqueue_emits (lit "telegram") (ofZ c ++ lit "_" ++ ofZ m) o t3)
    as (evs4 & E4 & F4).
  destruct (enqueue P (lit "telegram") (ofZ c ++ lit "_" ++ ofZ m) o t3)
    as [[[jobFile|]|e] t4]; simpl in E4; subst t4.
  all: exists (evs1 ++ [ev2; ev3] ++ evs4); split;
    [ apply Forall_app; split; [done|];
      apply Forall_app; split; [by repeat constructor|done] | ].
  all: assert (Et : t3 ++ evs4 = t1 ++ evs1 ++ [ev2; ev3] ++ evs4)
    by (unfold t3; by rewrite <- !app_assoc).
  - right. exists jobFile. by rewrite Hk, Et.
  - left. eexists. by rewrite Hk, Et.
  - left. eexists. by rewrite Hk, Et.
Qed.

(** The run of an admitted message: the arrival line, the first
    acknowledgment outside the [try], then the body up to the commit. *)
Lemma handler_run ctx c m :
  admitted allowedIds ctx c m ->
  let messageDir :=
    getMessageDir P (lit "telegram") (ofZ c ++ lit "_" ++ ofZ m) in
  exists line, forall o,
    let rAck := o TUnit [ConsoleLog line] (ReplyWithChatAction (lit "typing")) in
    let t0 := [ConsoleLog line;
               Performed (ReplyWithChatAction (lit "typing")) rAck] in
    match rAck with
    | Threw e =>
        run (createIngressHandler P token allowedIds ctx) o = (Threw e, t0)
    | Returned _ =>
        exists r evs,
          Forall (fun ev => isSymlinkEvent ev = false) evs /\
          let t' := t0 ++ Performed (Mkdir messageDir true MODE) r :: evs in
          ((exists more,
               Forall (fun ev => isSymlinkEvent ev = false) more /\
               run (createIngressHandler P token allowedIds ctx) o
               = (Returned tt, t' ++ more))
           \/ (exists jobFile,
                 run (createIngressHandler P token allowedIds ctx) o
                 = tryCatch
                     (commit P messageDir jobFile c m (from ctx ?. from_id))
                     reportError o t'))
    end.
Proof.
  intros Hadm messageDir.
  destruct (handler_admits ctx c m Hadm) as [line Hrun].
  exists line. intros o.
  remember (run (createIngressHandler P token allowedIds ctx) o) as k eqn:Hk.
  unfold run in Hk. rewrite Hrun in Hk. clear Hrun.
  rewrite app_nil_l in Hk. unfold bind at 1 in Hk. unfold await at 1 in Hk.
  cbv zeta in *.
  destruct (o TUnit [ConsoleLog line] (ReplyWithChatAction (lit "typing")))
    as [[]|e]; [|done].
  set (t0 := [ConsoleLog line] ++ _) in *.
  change [ConsoleLog line;
          Performed (ReplyWithChatAction (lit "typing")) (Returned ())]
    with t0.
  destruct (accepted_run (messageText ctx) (messageQuote ctx)
              (extractAttachments (message ctx)) c m (from ctx ?. from_id)
              o t0) as (r & evs & F & [[res E]|[jobFile E]]).
  - exists r, evs. split; [done|]. left. unfold tryCatch in Hk.
    rewrite E in Hk. destruct res as [[]|e].
    + exists []. split; [done|]. by rewrite app_nil_r.
    + exists [ConsoleError (lit "[ingress] Error:") (ErrArg e)].
      split; [by repeat constructor|done].
  - exists r, evs. split; [done|]. right. exists jobFile.
    unfold tryCatch in *. by rewrite E in Hk.
Qed.

End Handler.

(** ** Splitting a trace at an event *)

Section Splits.

Context {A : Type} (Q : A -> bool).

Lemma no_split (l1 l2 l : list A) x :
  l1 ++ x :: l2 = l -> Q x = true -> Forall (fun y => Q y = false) l ->
  False.
Proof.
  intros <- Hx F. apply Forall_app in F as [_ F]. inversion F; congruence.
Qed.

Lemma unique_split (l1 l2 l1' l2' : list A) x x' :
  l1 ++ x :: l2 = l1' ++ x' :: l2' ->
  Q x = true ->
  Forall (fun y => Q y = false) l1' -> Forall (fun y => Q y = false) l2' ->
  l1 = l1' /\ x = x' /\ l2 = l2'.
Proof.
  revert l1'. induction l1 as [|y l1 IH]; intros [|y' l1'] E Hx F1 F2;
    simpl in E.
  - by injection E as -> ->.
  - injection E as -> _. inversion F1; congruence.
  - injection E as -> E. exfalso. by eapply no_split.
  - injection E as -> E. inversion F1; subst.
    destruct (IH l1' E) as (-> & -> & ->); done.
Qed.

End Splits.

(** ** The ingress handler: admission, error boundary, commit *)

Section Boundary.

Variable P : Platform.
Variables (token : str) (allowedIds : gset str).

(** The commit inside the [try]: always a normal return, the [symlink]
    first, then the write of [meta.json] and one closing log line. *)
Lemma commit_caught messageDir jobFile c m uid o t :
  let jobLink := path_join P [DATA_DIR P; jobFile ++ lit ".d"] in
  exists r1 body w,
    tryCatch (commit P messageDir jobFile c m uid) reportError o t
    = (Returned tt,
       t ++ Performed (Symlink messageDir jobLink) r1
         :: match r1 with
            | Threw err =>
                [ConsoleError (lit "[ingress] Failed to create symlink "
                               ++ jobLink ++ lit ":") (ErrArg err)]
            | Returned _ => []
            end
         ++ [Performed
               (WriteTextFile (path_join P [messageDir; lit "meta.json"])
                  body) w;
             match w with
             | Returned _ =>
                 ConsoleLog (lit "[ingress] Queued: " ++ jobFile
                             ++ lit " from user " ++ ofOptZ uid)
             | Threw e => ConsoleError (lit "[ingress] Error:") (ErrArg e)
             end]).
Proof.
  intros jobLink. unfold tryCatch. rewrite commit_run. fold jobLink.
  cbv zeta.
  set (r1 := o TUnit t (Symlink messageDir jobLink)).
  set (t1 := t ++ Performed (Symlink messageDir jobLink) r1 :: _).
  set (w := WriteTextFile _ _).
  exists r1, (stringifyMeta P {| channel := lit "telegram"; chatId := c;
                                 messageId := m; userId := uid |}),
    (o TUnit t1 w).
  unfold t1. destruct (o TUnit _ w) as [[]|e];
    rewrite <- ?app_assoc; try done.
  unfold reportError, consoleError. by rewrite <- ?app_assoc.
Qed.

(** An exception leaves the handler only from the first acknowledgment. *)
Lemma handler_raises_only_at_first_ack ctx o e t :
  run (createIngressHandler P token allowedIds ctx) o = (Threw e, t) ->
  exists line,
    t = [ConsoleLog line;
         Performed (ReplyWithChatAction (lit "typing")) (Threw e)].
Proof.
  intros Hrun.
  destruct (handler_cases P token allowedIds ctx)
    as [(l1 & l2 & E)|(c & m & Hadm)].
  { unfold run in Hrun. rewrite E in Hrun. done. }
  destruct (handler_run P token allowedIds ctx c m Hadm) as [line Hr].
  specialize (Hr o). cbv zeta in Hr.
  destruct (o TUnit [ConsoleLog line] (ReplyWithChatAction (lit "typing")))
    as [[]|e'].
  - destruct Hr as (r & evs & _ & [(more & _ & E)|(jobFile & E)]).
    + rewrite E in Hrun. done.
    + rewrite E in Hrun.
      destruct (commit_caught
                  (getMessageDir P (lit "telegram")
                     (ofZ c ++ lit "_" ++ ofZ m))
                  jobFile c m (from ctx ?. from_id) o
                  ([ConsoleLog line;
                    Performed (ReplyWithChatAction (lit "typing"))
                      (Returned ())]
                   ++ Performed
                        (Mkdir (getMessageDir P (lit "telegram")
                                  (ofZ c ++ lit "_" ++ ofZ m)) true MODE) r
                      :: evs))
        as (r1 & body & w & E').
      by generalize (eq_trans (eq_sym Hrun) E').
  - rewrite Hr in Hrun. injection Hrun as -> <-. by exists line.
Qed.

(** C7.  A message whose sender is not in the allow-list leaves two
    console lines and nothing else: no directory is created, no attachment
    is downloaded, no prompt and no [meta.json] is written, the queue is
    not invoked, and the handler returns. *)
Theorem unlisted_sender_touches_nothing ctx o :
  ~ senderAllowed allowedIds ctx ->
  exists line1 line2,
    run (createIngressHandler P token allowedIds ctx) o
    = (Returned tt, [ConsoleLog line1; ConsoleLog line2]).
Proof.
  intros Hna.
  destruct (handler_turns_away P token allowedIds ctx Hna)
    as (line1 & line2 & E).
  exists line1, line2. unfold run. by rewrite E.
Qed.

(** C3, as the code has it.  For an admitted message whose chat
    acknowledgment went through, the first call after it creates the
    message directory, recursively, with mode [0o755]: read, write and
    execute for the owner, read and execute (no write) for the group and
    for others. *)
Theorem message_directory_mode ctx c m o :
  admitted allowedIds ctx c m ->
  Performed (ReplyWithChatAction (lit "typing")) (Returned tt)
    ∈ snd (run (createIngressHandler P token allowedIds ctx) o) ->
  (exists line r rest,
      snd (run (createIngressHandler P token allowedIds ctx) o)
      = ConsoleLog line
        :: Performed (ReplyWithChatAction (lit "typing")) (Returned tt)
        :: Performed
             (Mkdir (getMessageDir P (lit "telegram")
                       (ofZ c ++ lit "_" ++ ofZ m)) true MODE) r
        :: rest)
  /\ ownerBits MODE = 7 /\ groupBits MODE = 5 /\ otherBits MODE = 5.
Proof.
  intros Hadm Hack. split; [|done].
  destruct (handler_run P token allowedIds ctx c m Hadm) as [line Hr].
  specialize (Hr o). cbv zeta in Hr.
  destruct (o TUnit [ConsoleLog line] (ReplyWithChatAction (lit "typing")))
    as [[]|e].
  2: { rewrite Hr in Hack. cbn [snd] in Hack.
       apply elem_of_cons in Hack as [Hack|Hack]; [done|].
       apply list_elem_of_singleton in Hack.
       apply Performed_inj in Hack as [_ Hack]. done. }
  destruct Hr as (r & evs & _ & [(more & _ & E)|(jobFile & E)]).
  - exists line, r, (evs ++ more). rewrite E. simpl.
    by rewrite <- ?app_assoc.
  - rewrite E.
    match goal with
    | |- context [tryCatch (commit _ ?md ?j _ _ ?u) reportError o ?tr] =>
        destruct (commit_caught md j c m u o tr) as (r1 & body & w & E')
    end.
    cbv zeta in E'. rewrite E'. simpl.
    eexists line, r, _. by rewrite <- ?app_assoc.
Qed.

(** C10.  When the [symlink] call throws, the trace goes on with the error
    line that names the link, then with the write of [meta.json] into the
    message directory; the handler returns normally; when the write goes
    through the last line reports the job as queued (when it throws, the
    last line is the error line of the outer [catch]).  Nothing is removed
    or undone after the failed [symlink]. *)
Theorem symlink_failure_is_absorbed ctx o pre target link err post :
  snd (run (createIngressHandler P token allowedIds ctx) o)
  = pre ++ Performed (Symlink target link) (Threw err) :: post ->
  fst (run (createIngressHandler P token allowedIds ctx) o) = Returned tt
  /\ (exists c m, admitted allowedIds ctx c m /\
        target = getMessageDir P (lit "telegram")
                   (ofZ c ++ lit "_" ++ ofZ m))
  /\ exists jobFile body w,
       link = path_join P [DATA_DIR P; jobFile ++ lit ".d"] /\
       post = [ConsoleError (lit "[ingress] Failed to create symlink "
                             ++ link ++ lit ":") (ErrArg err);
               Performed
                 (WriteTextFile (path_join P [target; lit "meta.json"])
                    body) w;
               match w with
               | Returned _ =>
                   ConsoleLog (lit "[ingress] Queued: " ++ jobFile
                               ++ lit " from user "
                               ++ ofOptZ (from ctx ?. from_id))
               | Threw e => ConsoleError (lit "[ingress] Error:") (ErrArg e)
               end].
Proof.
  intros Hsplit.
  destruct (handler_cases P token allowedIds ctx)
    as [(l1 & l2 & E)|(c & m & Hadm)].
  { unfold run in Hsplit. rewrite E in Hsplit. cbv beta iota delta [snd] in Hsplit.
    exfalso. symmetry in Hsplit.
    eapply (no_split isSymlinkEvent); [exact Hsplit|done|].
    by repeat constructor. }
  destruct (handler_run P token allowedIds ctx c m Hadm) as [line Hr].
  specialize (Hr o). cbv zeta in Hr.
  destruct (o TUnit [ConsoleLog line] (ReplyWithChatAction (lit "typing")))
    as [[]|e'].
  2: { rewrite Hr in Hsplit. cbv beta iota delta [snd] in Hsplit. exfalso. symmetry in Hsplit.
       eapply (no_split isSymlinkEvent); [exact Hsplit|done|].
       by repeat constructor. }
  destruct Hr as (r & evs & F & [(more & F' & E)|(jobFile & E)]).
  { rewrite E in Hsplit. cbv beta iota delta [snd] in Hsplit. exfalso. symmetry in Hsplit.
    eapply (no_split isSymlinkEvent); [exact Hsplit|done|].
    apply Forall_app. split; [|done].
    apply Forall_app. split; [by repeat constructor|by constructor]. }
  set (messageDir := getMessageDir P (lit "telegram")
                       (ofZ c ++ lit "_" ++ ofZ m)) in *.
  set (t' := _ ++ Performed (Mkdir messageDir true MODE) r :: evs) in E.
  destruct (commit_caught messageDir jobFile c m (from ctx ?. from_id) o t')
    as (r1 & body & w & E').
  cbv zeta in E'. rewrite E' in E. clear E'.
  rewrite E in Hsplit |- *. cbv beta iota delta [fst snd] in Hsplit |- *.
  assert (Ft : Forall (fun ev => isSymlinkEvent ev = false) t').
  { unfold t'. apply Forall_app.
    split; [by repeat constructor|by constructor]. }
  symmetry in Hsplit.
  apply (unique_split isSymlinkEvent) in Hsplit as (_ & Hev & Hpost);
    [|done|done|].
  2: { apply Forall_app. split; [by destruct r1; repeat constructor|].
       by destruct w; repeat constructor. }
  apply Performed_inj in Hev as [Hc <-]. injection Hc as -> ->.
  split; [done|]. split; [by exists c, m|].
  exists jobFile, body, w. split; [done|]. by rewrite Hpost.
Qed.

End Boundary.

(** C7 at the message of a stranger. *)
Lemma unlisted_sender_witness :
  ~ senderAllowed Sample.allowedIds Sample.stranger /\
  exists line1 line2,
    run (createIngressHandler Sample.platform Sample.token
           Sample.allowedIds Sample.stranger) (Sample.calm [])
    = (Returned tt, [ConsoleLog line1; ConsoleLog line2]).
Proof.
  assert (H : ~ senderAllowed Sample.allowedIds Sample.stranger).
  { intros (u & Eu & Hin). simpl in Eu. injection Eu as <-.
    apply elem_of_singleton in Hin. vm_compute in Hin. discriminate. }
  split; [exact H|].
  exact (unlisted_sender_touches_nothing Sample.platform Sample.token
           Sample.allowedIds Sample.stranger (Sample.calm []) H).
Defined.

Lemma hello_admitted : admitted Sample.allowedIds Sample.hello 456 789.
Proof.
  split_and!; [|reflexivity|reflexivity|by left].
  exists 123. split; [reflexivity|]. apply elem_of_singleton. reflexivity.
Defined.

(** C3, as the claim words it, fails on the message of the test 'queues
    valid message': its directory is created with a mode that is not
    owner-only. *)
Lemma message_directory_not_owner_only :
  ~ (forall P token allowedIds ctx c m o path recursive mode r,
        admitted allowedIds ctx c m ->
        Performed (Mkdir path recursive mode) r
          ∈ snd (run (createIngressHandler P token allowedIds ctx) o) ->
        ownerOnly mode).
Proof.
  intros H.
  assert (Hin : Performed
                  (Mkdir (lit "/data/messages/telegram/456_789") true 0x1ed)
                  (Returned tt)
                ∈ snd (run (createIngressHandler Sample.platform Sample.token
                              Sample.allowedIds Sample.hello)
                         (Sample.calm []))).
  { apply list_elem_of_lookup. exists 2%nat. vm_compute. reflexivity. }
  destruct (H _ _ _ _ _ _ _ _ _ _ _ hello_admitted Hin) as (_ & Hg & _).
  vm_compute in Hg. discriminate.
Qed.

(** C3 at the message of the test 'queues valid message'. *)
Lemma message_directory_mode_witness :
  let handler := createIngressHandler Sample.platform Sample.token
                   Sample.allowedIds Sample.hello in
  admitted Sample.allowedIds Sample.hello 456 789 /\
  Performed (ReplyWithChatAction (lit "typing")) (Returned tt)
    ∈ snd (run handler (Sample.calm [])) /\
  ((exists line r rest,
       snd (run handler (Sample.calm []))
       = ConsoleLog line
         :: Performed (ReplyWithChatAction (lit "typing")) (Returned tt)
         :: Performed
              (Mkdir (getMessageDir Sample.platform (lit "telegram")
                        (ofZ 456 ++ lit "_" ++ ofZ 789)) true MODE) r
         :: rest)
   /\ ownerBits MODE = 7 /\ groupBits MODE = 5 /\ otherBits MODE = 5).
Proof.
  intros handler.
  assert (Hack : Performed (ReplyWithChatAction (lit "typing")) (Returned tt)
                 ∈ snd (run handler (Sample.calm []))).
  { apply list_elem_of_lookup. exists 1%nat. vm_compute. reflexivity. }
  split; [exact hello_admitted|]. split; [exact Hack|].
  exact (message_directory_mode Sample.platform Sample.token
           Sample.allowedIds Sample.hello 456 789 (Sample.calm [])
           hello_admitted Hack).
Defined.

(** C10 at the message of the test 'queues valid message', in a world where
    only [symlink] fails: [meta.json] is written and the job is reported as
    queued, with no job link. *)
Lemma symlink_failure_witness :
  let o := Sample.failing Sample.isSymlinkCall (Sample.calm []) in
  let handler := createIngressHandler Sample.platform Sample.token
                   Sample.allowedIds Sample.hello in
  let target := lit "/data/messages/telegram/456_789" in
  let link := lit "/data/,19a2b3c4d5e.4242.d" in
  let err := Error (lit "failed") in
  snd (run handler o)
  = take 6 (snd (run handler o))
    ++ Performed (Symlink target link) (Threw err)
    :: drop 7 (snd (run handler o))
  /\ fst (run handler o) = Returned tt
  /\ exists jobFile body,
       drop 7 (snd (run handler o))
       = [ConsoleError (lit "[ingress] Failed to create symlink "
                        ++ link ++ lit ":") (ErrArg err);
          Performed (WriteTextFile (lit "/data/messages/telegram/456_789/meta.json") body)
            (Returned tt);
          ConsoleLog (lit "[ingress] Queued: " ++ jobFile
                      ++ lit " from user 123")].
Proof.
  intros o handler target link err.
  assert (H : snd (run handler o)
              = take 6 (snd (run handler o))
                ++ Performed (Symlink target link) (Threw err)
                :: drop 7 (snd (run handler o)))
    by (vm_compute; reflexivity).
  split; [exact H|].
  destruct (symlink_failure_is_absorbed Sample.platform Sample.token
              Sample.allowedIds Sample.hello o _ target link err _ H)
    as (Hres & _ & jobFile & body & w & _ & Hpost).
  split; [exact Hres|].
  exists (lit ",19a2b3c4d5e.4242"),
    (stringifyMeta Sample.platform
       {| channel := lit "telegram"; chatId := 456; messageId := 789;
          userId := Some 123 |}).
  vm_compute. reflexivity.
Defined.

(** The order of the parts of the prompt when the message is a reply and an
    attachment was staged: the manifest, then the quote, then the text. *)
Lemma buildPrompt_both text quote path paths :
  quote ≠ [] ->
  buildPrompt text quote (path :: paths)
  = trim (lit "Attachments:" ++ [NL] ++ manifest (path :: paths) ++ [NL; NL]
          ++ lit "Quote: " ++ quote ++ [NL; NL] ++ text).
Proof.
  intros Hq. unfold buildPrompt.
  destruct quote as [|q quote]; [done|]. reflexivity.
Qed.

(** C1: a reply carrying a document, every call succeeding.  The prompt
    written to [prompt.txt] starts with the attachment manifest; the quoted
    reply comes second and the text last, where the claim has the quoted
    reply first. *)
Theorem prompt_has_manifest_before_quote :
  snd (run (createIngressHandler Sample.platform Sample.token
              Sample.allowedIds Sample.replyWithDocument) (Sample.calm []))
    !! 10%nat
  = Some (Performed
            (WriteTextFile (lit "/data/messages/telegram/456_789/prompt.txt")
               (lit "Attachments:" ++ [NL]
                ++ lit "1. @/data/messages/telegram/456_789/attachments/report.pdf"
                ++ [NL; NL] ++ lit "Quote: earlier" ++ [NL; NL]
                ++ lit "hello"))
            (Returned tt)).
Proof. vm_compute. reflexivity. Qed.

(** C2: the first chat acknowledgment is awaited before the [try], so its
    failure leaves the handler as an exception: nothing is caught and
    nothing about the failure is logged. *)
Theorem first_acknowledgment_failure_escapes :
  exists line,
    run (createIngressHandler Sample.platform Sample.token
           Sample.allowedIds Sample.hello)
      (Sample.failing Sample.isAck (Sample.calm []))
    = (Threw (Error (lit "failed")),
       [ConsoleLog line;
        Performed (ReplyWithChatAction (lit "typing"))
          (Threw (Error (lit "failed")))]).
Proof. eexists. vm_compute. reflexivity. Qed.

(** ** The egress reconciler *)

Section Reconciler.

Variable P : Platform.



(** The run of [processJob] through its two reads. *)
Lemma processJob_run scanDir jobName o :
  let metaPath := getJobMeta P jobName in
  let logPath := path_join P [scanDir; jobName] in
  let r1 := o TText [] (ReadTextFile metaPath) in
  let ev1 := Performed (ReadTextFile metaPath) r1 in
  let r2 := o TText [ev1] (ReadTextFile logPath) in
  let ev2 := Performed (ReadTextFile logPath) r2 in
  run (processJob P scanDir jobName) o
  = match r1 with
    | Threw e => (Threw e, [ev1])
    | Returned metaText =>
        match parseMeta P metaText with
        | Threw e => (Threw e, [ev1])
        | Returned meta =>
            match r2 with
            | Threw e => (Threw e, [ev1; ev2])
            | Returned logText =>
                if truthy (jobOutput logText) then
                  bind (await (SendChatAction (chatId meta) (lit "typing")))
                    (fun _ =>
                       bind (sendSplitMessage P (chatId meta)
                               (jobOutput logText) (messageId meta))
                         (fun _ => retire P scanDir jobName meta))
                    o [ev1; ev2]
                else
                  (Returned tt,
                   [ev1; ev2;
                    ConsoleLog (lit "[egress] Empty output for " ++ jobName
                                ++ lit ", skipping")])
            end
        end
    end.
Proof.
  intros metaPath logPath r1 ev1 r2 ev2.
  unfold run, processJob. fold metaPath logPath.
  unfold bind at 1. unfold await at 1. rewrite app_nil_l. fold r1. fold ev1.
  destruct r1 as [metaText|e]; [|done].
  unfold bind at 1. unfold settle at 1.
  destruct (parseMeta P metaText) as [meta|e]; [|done].
  unfold bind at 1. unfold await at 1. fold r2.
  change ([ev1] ++ [Performed (ReadTextFile logPath) r2]) with [ev1; ev2].
  destruct r2 as [logText|e]; [|done].
  destruct (truthy (jobOutput logText)); [done|].
  unfold consoleLog. done.
Qed.

(** [sendSplitMessage] sends the units of the escaped text, in order. *)
Lemma sendSplitMessage_units chat text reply :
  exists units, Cuts (convert P text) units /\
    forall o t, sendSplitMessage P chat text reply o t
                = sendEach chat reply units o t.
Proof.
  destruct (whileLoop_cuts (length (convert P text)) (convert P text))
    as (units & Hc & Hrun); [done|].
  exists units. split; [done|]. intros o t. apply Hrun.
Qed.








End Reconciler.

(** ** Output stripping and delivery by [processJob] *)

(** C4.  Of the trimmed text of a job file: when it has one line or two,
    [processJob] takes it as it is; when it has more, [processJob] takes
    the lines between the first and the last, trimmed.  What it takes, when
    not empty, is the text passed to [sendSplitMessage], which escapes and
    delivers it. *)
Theorem output_stripping logText :
  let raw := trim logText in
  ((length (lines raw) <= 2)%nat -> jobOutput logText = raw)
  /\ ((2 < length (lines raw))%nat ->
      jobOutput logText = trim (join [NL] (interiorLines (lines raw))))
  /\ forall P scanDir jobName (o : Oracle) (metaText : str) meta,
       let ev1 := Performed (ReadTextFile (getJobMeta P jobName))
                    (Returned metaText) in
       let ev2 := Performed (ReadTextFile (path_join P [scanDir; jobName]))
                    (Returned logText) in
       o TText [] (ReadTextFile (getJobMeta P jobName)) = Returned metaText ->
       parseMeta P metaText = Returned meta ->
       o TText [ev1] (ReadTextFile (path_join P [scanDir; jobName]))
       = Returned logText ->
       jobOutput logText ≠ [] ->
       run (processJob P scanDir jobName) o
       = bind (await (SendChatAction (chatId meta) (lit "typing")))
           (fun _ =>
              bind (sendSplitMessage P (chatId meta) (jobOutput logText)
                      (messageId meta))
                (fun _ => retire P scanDir jobName meta))
           o [ev1; ev2].
Proof.
  intros raw. split_and!.
  - intros H. rewrite jobOutput_stripped. unfold strippedOutput. fold raw.
    by destruct (Nat.ltb_spec 2 (length (lines raw))); [lia|].
  - intros H. rewrite jobOutput_stripped. unfold strippedOutput. fold raw.
    by destruct (Nat.ltb_spec 2 (length (lines raw))); [|lia].
  - intros P scanDir jobName o metaText meta ev1 ev2 H1 Hm H2 Hout.
    rewrite processJob_run. cbv zeta. rewrite H1, Hm. fold ev1.
    rewrite H2. apply truthy_nonempty in Hout. by rewrite Hout.
Qed.

(** C5.  When the metadata and the job file are read and the stripped
    output is empty, [processJob] logs one line and returns: no chat
    action, no message, nothing else. *)
Theorem empty_output_delivers_nothing P scanDir jobName (o : Oracle)
    (metaText : str) meta (logText : str) :
  let ev1 := Performed (ReadTextFile (getJobMeta P jobName))
               (Returned metaText) in
  let ev2 := Performed (ReadTextFile (path_join P [scanDir; jobName]))
               (Returned logText) in
  o TText [] (ReadTextFile (getJobMeta P jobName)) = Returned metaText ->
  parseMeta P metaText = Returned meta ->
  o TText [ev1] (ReadTextFile (path_join P [scanDir; jobName]))
  = Returned logText ->
  strippedOutput logText = [] ->
  run (processJob P scanDir jobName) o
  = (Returned tt,
     [ev1; ev2;
      ConsoleLog (lit "[egress] Empty output for " ++ jobName
                  ++ lit ", skipping")]).
Proof.
  intros ev1 ev2 H1 Hm H2 Hout.
  rewrite processJob_run. cbv zeta. rewrite H1, Hm. fold ev1. rewrite H2.
  by rewrite jobOutput_stripped, Hout.
Qed.

(** C4 at a job file of four lines and at one of two lines. *)
Lemma output_stripping_witness :
  jobOutput Sample.wrapped = lit "hello" ++ [NL] ++ lit "world"
  /\ jobOutput Sample.twoLines = Sample.twoLines
  /\ run (processJob Sample.platform Sample.scanDir Sample.jobName)
       (Sample.withJob Sample.wrapped)
     = (Returned tt,
        snd (run (processJob Sample.platform Sample.scanDir Sample.jobName)
               (Sample.withJob Sample.wrapped))).
Proof.
  destruct (output_stripping Sample.wrapped) as (_ & Hmore & Hrun).
  destruct (output_stripping Sample.twoLines) as (Hfew & _ & _).
  split_and!.
  - rewrite Hmore; [vm_compute; reflexivity|]. vm_compute. lia.
  - rewrite Hfew; [vm_compute; reflexivity|]. vm_compute. lia.
  - rewrite (Hrun Sample.platform Sample.scanDir Sample.jobName
               (Sample.withJob Sample.wrapped) (lit "{meta}")
               Sample.sampleMeta);
      [vm_compute; reflexivity|reflexivity|reflexivity|reflexivity|].
    vm_compute. discriminate.
Defined.

(** C5 at a job file whose only interior line is blank. *)
Lemma empty_output_witness :
  strippedOutput Sample.blankInside = []
  /\ run (processJob Sample.platform Sample.scanDir Sample.jobName)
       (Sample.withJob Sample.blankInside)
     = (Returned tt,
        [Performed (ReadTextFile Sample.metaPath) (Returned (lit "{meta}"));
         Performed (ReadTextFile Sample.logPath)
           (Returned Sample.blankInside);
         ConsoleLog (lit "[egress] Empty output for " ++ Sample.jobName
                     ++ lit ", skipping")]).
Proof.
  assert (H : strippedOutput Sample.blankInside = [])
    by (vm_compute; reflexivity).
  split; [exact H|].
  exact (empty_output_delivers_nothing Sample.platform Sample.scanDir
           Sample.jobName (Sample.withJob Sample.blankInside) (lit "{meta}")
           Sample.sampleMeta Sample.blankInside
           eq_refl eq_refl eq_refl H).
Defined.

(** ** Chunked delivery by [sendSplitMessage] *)

(** The long output of the test is cut at its newline into the run of
    [A]s and the run of [B]s. *)
Lemma longOutput_cuts : Cuts Sample.longOutput [Sample.As; Sample.Bs].
Proof.
  assert (Hsplit : SplitPoint Sample.longOutput 4000).
  { left. split_and!; [reflexivity|lia|].
    intros j Hj. unfold Sample.longOutput.
    assert (HA : length Sample.As = 4000%nat)
      by (unfold Sample.As; apply length_replicate).
    unfold str. rewrite lookup_app_r by lia. rewrite HA.
    destruct (j - 4000)%nat as [|i] eqn:Ei; [lia|]. simpl.
    unfold Sample.Bs. intros Hl.
    apply lookup_replicate in Hl as [Hl _]. discriminate. }
  pose proof (cuts_split Sample.longOutput 4000 [Sample.Bs]) as H.
  replace (trim (take 4000 Sample.longOutput)) with Sample.As in H
    by (vm_compute; reflexivity).
  replace (trim (drop 4000 Sample.longOutput)) with Sample.Bs in H
    by (vm_compute; reflexivity).
  apply H; [vm_compute; reflexivity|exact Hsplit|].
  change [Sample.Bs] with (piece Sample.Bs).
  apply cuts_fits. vm_compute. discriminate.
Qed.

(** C6, as the code has it.  The escaped text has a sequence of delivery
    units ([Cuts]): a text within the limit is one unit, sent as it is; a
    longer text is cut at the last newline at or before the limit, or at
    the limit when there is none, the part before the cut is trimmed and
    skipped when empty, and the trimmed rest is cut in turn.
    [sendSplitMessage] sends these units in order, each as a reply to the
    same message, stopping at the first send that throws.  Every unit is
    non-empty and within the limit; the units of a text over the limit are
    trimmed.  The long output of the test makes two units, the [A]s and
    the [B]s. *)
Theorem sendSplitMessage_delivers_units P chatId text replyToMessageId :
  exists units,
    Cuts (convert P text) units
    /\ (forall o t,
          sendSplitMessage P chatId text replyToMessageId o t
          = sendEach chatId replyToMessageId units o t)
    /\ Forall (fun chunk => 0 < len chunk <= 4096) units
    /\ (4096 < len (convert P text) ->
        Forall (fun chunk => trim chunk = chunk) units)
    /\ (convert P text = Sample.longOutput ->
        units = [Sample.As; Sample.Bs]).
Proof.
  destruct (sendSplitMessage_units P chatId text replyToMessageId)
    as (units & Hc & Hrun).
  exists units. split_and!; [done|done| | |].
  - by eapply Cuts_bounds.
  - by apply Cuts_trimmed.
  - intros E. rewrite E in Hc.
    exact (Cuts_unique _ _ Hc _ longOutput_cuts).
Qed.

(** C6 at the long output of the test: two deliveries, to the same reply
    target. *)
Lemma sendSplitMessage_witness :
  convert Sample.platform Sample.longOutput = Sample.longOutput
  /\ 4096 < len (convert Sample.platform Sample.longOutput)
  /\ run (sendSplitMessage Sample.platform 123 Sample.longOutput 456)
       (Sample.calm [])
     = (Returned tt, [sent 123 456 Sample.As; sent 123 456 Sample.Bs]).
Proof.
  destruct (sendSplitMessage_delivers_units Sample.platform 123
              Sample.longOutput 456)
    as (units & _ & Hrun & _ & Htrim & Hunits).
  assert (E : convert Sample.platform Sample.longOutput = Sample.longOutput)
    by reflexivity.
  assert (L : 4096 < len (convert Sample.platform Sample.longOutput))
    by (vm_compute; reflexivity).
  specialize (Hunits E). specialize (Htrim L). subst units.
  split; [exact E|]. split; [exact L|].
  unfold run. rewrite Hrun. reflexivity.
Defined.

(** C6, as the claim words it, fails on a short output: with a [convert]
    that ends its output with a newline, the text [hello] is delivered as
    one chunk that is not trimmed. *)
Lemma short_output_is_sent_untrimmed :
  ~ (forall P chatId text replyToMessageId o chunk r,
        Performed (SendMessage chatId chunk replyToMessageId MarkdownV2) r
          ∈ snd (run (sendSplitMessage P chatId text replyToMessageId) o) ->
        trim chunk = chunk).
Proof.
  intros H.
  assert (Hin : Performed
                  (SendMessage 123 (lit "hello" ++ [NL]) 456 MarkdownV2)
                  (Returned tt)
                ∈ snd (run (sendSplitMessage Sample.platformNL 123
                              (lit "hello") 456) (Sample.calm []))).
  { apply list_elem_of_lookup. exists 0%nat. vm_compute. reflexivity. }
  apply H in Hin. vm_compute in Hin. discriminate.
Qed.


(** ** Job names *)

Lemma insertSorted_Forall (Q : str -> Prop) x xs :
  Q x -> Forall Q xs -> Forall Q (insertSorted x xs).
Proof.
  intros Hx. induction 1 as [|y ys Hy F IH]; simpl; [by repeat constructor|].
  destruct (ltb y x || negb (ltb x y)); by repeat constructor.
Qed.

Lemma sort_Forall (Q : str -> Prop) xs : Forall Q xs -> Forall Q (sort xs).
Proof.
  intros F. unfold sort. apply Forall_rev in F.
  induction F as [|y ys Hy F IH]; simpl; [done|].
  by apply insertSorted_Forall.
Qed.

(** C9.  The start-up scan processes the names collected from the
    directory entries, and every collected name starts with a comma; in
    the watch loop a path whose file name does not start with a comma is
    passed over without a call and without a change to the guard set, so
    that an event is handled as if it carried its comma-named paths
    only. *)
Theorem only_comma_names_are_processed P :
  (forall entries,
      Forall (fun jobName => startsWith COMMA jobName = true)
        (collectJobs entries))
  /\ (forall scanDir (o : Oracle) t entries,
        o TEntries t (ReadDir scanDir) = Returned entries ->
        scanAndProcess P scanDir o t
        = tryCatch (processJobs P scanDir (collectJobs entries))
            (fun err => consoleError (lit "[egress] Scan error:")
                          (ErrArg err))
            o (t ++ [Performed (ReadDir scanDir) (Returned entries)]))
  /\ (forall processing path o t,
        startsWith COMMA (basename P path) = false ->
        handlePath P processing path o t = (Returned processing, t))
  /\ (forall ps processing o t,
        handlePaths P processing ps o t
        = handlePaths P processing
            (filter (fun path => startsWith COMMA (basename P path) = true)
               ps) o t).
Proof.
  assert (Hskip : forall processing path o t,
             startsWith COMMA (basename P path) = false ->
             handlePath P processing path o t = (Returned processing, t)).
  { intros processing path o t H. unfold handlePath. by rewrite H. }
  split_and!; [| |exact Hskip|].
  - intros entries. unfold collectJobs. apply sort_Forall.
    apply Forall_fmap, Forall_forall. intros entry Hin.
    apply list_elem_of_filter in Hin as [Hin _].
    apply andb_prop_elim in Hin as [_ Hin]. by apply Is_true_true.
  - intros scanDir o t entries H. unfold scanAndProcess, tryCatch.
    unfold bind, await. by rewrite H.
  - induction ps as [|path ps IH]; intros processing o t; [done|].
    rewrite filter_cons. cbn [handlePaths].
    destruct (startsWith COMMA (basename P path)) eqn:E.
    + rewrite decide_True by done. cbn [handlePaths].
      apply bind_ext. intros. apply IH.
    + rewrite decide_False by done.
      unfold bind at 1. rewrite Hskip by done. apply IH.
Qed.

(** C9 at a directory holding two job files, a note and a sub-directory,
    and at a path whose file name has no comma. *)
Lemma only_comma_names_witness :
  let entries := [ {| name := lit "notes.txt"; isFile := true |};
                   {| name := lit ",19a2b3c4d5f.7"; isFile := true |};
                   {| name := lit ",19a2b3c4d5e.4242"; isFile := true |};
                   {| name := lit ",tmp"; isFile := false |} ] in
  collectJobs entries = [lit ",19a2b3c4d5e.4242"; lit ",19a2b3c4d5f.7"]
  /\ startsWith COMMA
       (basename Sample.platform (lit "/queue/completed/notes.txt")) = false
  /\ handlePath Sample.platform ∅ (lit "/queue/completed/notes.txt")
       (Sample.calm []) []
     = (Returned ∅, []).
Proof.
  intros entries.
  destruct (only_comma_names_are_processed Sample.platform)
    as (Hnames & _ & Hskip & _).
  assert (H : startsWith COMMA
                (basename Sample.platform (lit "/queue/completed/notes.txt"))
              = false) by (vm_compute; reflexivity).
  split_and!; [vm_compute; reflexivity|exact H|].
  exact (Hskip ∅ _ (Sample.calm []) [] H).
Defined.

(** * Further properties of the code *)

(** ** The order of the start-up scan *)

Section ScanOrder.

Lemma ltb_asym (a : str) : forall b, ltb a b = true -> ltb b a = false.
Proof.
  induction a as [|x a IH]; intros [|y b]; simpl; try done.
  intros H. apply orb_true_iff in H as [H|H].
  - apply N.ltb_lt in H.
    destruct (N.ltb_spec y x); [lia|]. destruct (N.eqb_spec y x); [lia|done].
  - apply andb_true_iff in H as [Hxy H]. apply N.eqb_eq in Hxy as ->.
    rewrite N.ltb_irrefl, N.eqb_refl. simpl. by apply IH.
Qed.

Lemma insertSorted_Permutation x xs : Permutation (insertSorted x xs) (x :: xs).
Proof.
  induction xs as [|y ys IH]; simpl; [done|].
  destruct (ltb y x || negb (ltb x y)); [|done].
  rewrite IH. apply perm_swap.
Qed.

Lemma insertSorted_Sorted x xs :
  Sorted notAfter xs -> Sorted notAfter (insertSorted x xs).
Proof.
  induction 1 as [|y ys Hs IH Hhd]; simpl; [by repeat constructor|].
  destruct (ltb y x || negb (ltb x y)) eqn:E.
  - constructor; [done|].
    destruct ys as [|z zs]; simpl in *.
    + constructor. unfold notAfter.
      apply orb_true_iff in E as [E|E]; [by apply ltb_asym|].
      by apply negb_true_iff.
    + destruct (ltb z x || negb (ltb x z)).
      * constructor. by inversion Hhd.
      * constructor. unfold notAfter.
        apply orb_true_iff in E as [E|E]; [by apply ltb_asym|].
        by apply negb_true_iff.
  - apply orb_false_iff in E as [E _].
    constructor; [by constructor|]. by constructor.
Qed.

Lemma sort_Permutation xs : Permutation (sort xs) xs.
Proof.
  unfold sort. etrans; [|symmetry; apply Permutation_rev].
  induction (rev xs) as [|y ys IH]; simpl; [done|].
  by rewrite insertSorted_Permutation, IH.
Qed.

Lemma sort_Sorted xs : Sorted notAfter (sort xs).
Proof.
  unfold sort. induction (rev xs) as [|y ys IH]; simpl; [constructor|].
  by apply insertSorted_Sorted.
Qed.

End ScanOrder.

(** ** What chunking keeps *)

Section Ink.

Lemma ink_app (a b : str) : ink (a ++ b) = ink a ++ ink b.
Proof. apply filter_app. Qed.

Lemma ink_trimStart s : ink (trimStart s) = ink s.
Proof.
  induction s as [|x s IH]; simpl; [done|].
  destruct (isWhite x) eqn:E; [|done].
  rewrite IH. unfold ink, str. by rewrite filter_cons_False by congruence.
Qed.

Lemma ink_rev s : ink (rev s) = rev (ink s).
Proof.
  induction s as [|x s IH]; [done|].
  simpl rev. rewrite ink_app, IH. unfold ink, str.
  destruct (isWhite x) eqn:E.
  - rewrite !filter_cons_False by congruence. by rewrite app_nil_r.
  - by rewrite !filter_cons_True by done.
Qed.

Lemma ink_trim s : ink (trim s) = ink s.
Proof.
  unfold trim, trimEnd.
  by rewrite ink_rev, ink_trimStart, ink_rev, rev_involutive, ink_trimStart.
Qed.

Lemma ink_piece s : concat (ink <$> piece s) = ink s.
Proof. destruct s; simpl; [done|]. by rewrite app_nil_r. Qed.

(** The units of a text hold its non-white characters, all of them, once
    and in order. *)
Lemma Cuts_ink s units : Cuts s units -> concat (ink <$> units) = ink s.
Proof.
  induction 1 as [s Hs|s k rest Hs Hk _ IH]; [apply ink_piece|].
  rewrite fmap_app, concat_app, ink_piece, IH, !ink_trim.
  by rewrite <- ink_app, take_drop.
Qed.

End Ink.

(** X1.  Whatever [convert] returns and however it is cut, the units that
    [sendSplitMessage] sends hold the characters of the escaped text that
    are not white space: all of them, once each, in their order.  Cutting
    and trimming drop white space only. *)
Theorem chunking_keeps_the_text P chatId text replyToMessageId :
  exists units,
    (forall o t,
        sendSplitMessage P chatId text replyToMessageId o t
        = sendEach chatId replyToMessageId units o t)
    /\ concat (ink <$> units) = ink (convert P text).
Proof.
  destruct (sendSplitMessage_units P chatId text replyToMessageId)
    as (units & Hc & Hrun).
  exists units. split; [done|]. by apply Cuts_ink.
Qed.

(** ** The loop of [sendSplitMessage] comes to an end *)

Section LoopEnd.

Lemma whileLoop_fuel fuel1 : forall fuel2 rem chat reply o t,
  (length rem <= fuel1)%nat -> (length rem <= fuel2)%nat ->
  whileLoop fuel1 chat reply rem o t = whileLoop fuel2 chat reply rem o t.
Proof.
  induction fuel1 as [|fuel1 IH]; intros fuel2 rem chat reply o t H1 H2.
  - assert (Hl : len rem <= 4096) by (unfold len; lia).
    by rewrite !whileLoop_exit.
  - destruct (Z.le_gt_cases (len rem) 4096) as [Hl|Hl].
    { by rewrite !whileLoop_exit. }
    destruct fuel2 as [|fuel2]; [unfold len in Hl; lia|].
    destruct (splitIndexOf_spec rem) as (k & Ek & Hk).
    pose proof (split_shrinks rem k Hl Hk) as Hs.
    rewrite !whileLoop_step by done. apply bind_ext. intros _ o' t'.
    rewrite Ek, slice_suffix by lia. rewrite Nat2Z.id. apply IH; lia.
Qed.

(** X2.  The [while] loop of [sendSplitMessage] terminates: as many
    iterations as the text has characters always reach the exit (or a send
    that throws), and allowing more iterations changes nothing. *)
Theorem split_loop_terminates chatId replyToMessageId remaining o t :
  fst (whileLoop (length remaining) chatId replyToMessageId remaining o t)
  ≠ Returned None
  /\ forall fuel,
       (length remaining <= fuel)%nat ->
       whileLoop fuel chatId replyToMessageId remaining o t
       = whileLoop (length remaining) chatId replyToMessageId remaining o t.
Proof.
  split.
  - destruct (whileLoop_exits (length remaining) remaining (le_n _)
                chatId replyToMessageId o t) as [[e E]|(left & E & _)];
      rewrite E; done.
  - intros fuel H. by apply whileLoop_fuel.
Qed.

End LoopEnd.

(** X2 with twice the iterations on the long output of the test. *)
Lemma split_loop_terminates_witness :
  (length Sample.longOutput <= 2 * length Sample.longOutput)%nat
  /\ whileLoop (2 * length Sample.longOutput) 123 456 Sample.longOutput
       (Sample.calm []) []
     = whileLoop (length Sample.longOutput) 123 456 Sample.longOutput
         (Sample.calm []) [].
Proof.
  assert (H : (length Sample.longOutput
               <= 2 * length Sample.longOutput)%nat) by lia.
  split; [exact H|].
  exact (proj2 (split_loop_terminates 123 456 Sample.longOutput
                  (Sample.calm []) []) _ H).
Defined.

(** ** The output of a job *)

(** X3.  The text that [processJob] takes from a job file carries no
    white space at either end, whether or not lines were stripped, and is
    never longer than the file. *)
Theorem jobOutput_is_trimmed logText :
  trim (jobOutput logText) = jobOutput logText
  /\ (length (jobOutput logText) <= length logText)%nat.
Proof.
  unfold jobOutput.
  destruct (negb (indexOf NL (trim logText) =? -1)
            && negb (indexOf NL (trim logText)
                     =? lastIndexOf NL (trim logText) None)).
  - split; [apply trim_idem|].
    etrans; [apply trim_length|].
    unfold slice. rewrite length_take, length_drop.
    pose proof (trim_length logText). lia.
  - split; [apply trim_idem|apply trim_length].
Qed.

(** ** The order of the start-up scan, continued *)

Lemma notAfter_trans (a : str) : forall b c,
  notAfter a b -> notAfter b c -> notAfter a c.
Proof.
  unfold notAfter.
  induction a as [|x a IH]; intros [|y b] [|z c]; simpl; try done.
  intros H1 H2.
  apply orb_false_iff in H1 as [H1 H1'], H2 as [H2 H2'].
  apply N.ltb_ge in H1, H2.
  apply orb_false_iff. split; [apply N.ltb_ge; lia|].
  destruct (N.eqb_spec z x) as [->|Hzx]; [|done]. simpl.
  assert (y = x) as -> by lia.
  rewrite N.eqb_refl in H1', H2'. simpl in *. by eapply IH.
Qed.

(** X4.  The job names that the start-up scan processes are the names of
    the entries that are files and start with a comma, each as often as it
    is listed, in non-decreasing code-unit order: no name is followed,
    however far, by a name that comes before it.  With the queue's
    [,HEXTIME.PID] names this is oldest first. *)
Theorem scan_order entries :
  StronglySorted notAfter (collectJobs entries)
  /\ Permutation (collectJobs entries)
       (name <$> filter (fun entry =>
                           isFile entry && startsWith COMMA (name entry))
                   entries).
Proof.
  split.
  - apply Sorted_StronglySorted; [|apply sort_Sorted].
    intros a b c. apply notAfter_trans.
  - apply sort_Permutation.
Qed.

(** ** Message identifiers and the arguments of [dispatch] *)

Section Identifiers.

Lemma lit_inj (a b : string) : lit a = lit b -> a = b.
Proof.
  unfold lit. revert b. induction a as [|x a IH]; intros [|y b] H; simpl in H; try done.
  injection H as Hxy H. f_equal; [|by apply IH].
  rewrite <- (ascii_N_embedding x), <- (ascii_N_embedding y). by rewrite Hxy.
Qed.

Lemma uint_numerals d :
  Forall (fun c => (48 <=? c)%N && (c <=? 57)%N = true) (lit (NilEmpty.string_of_uint d)).
Proof.
  induction d; simpl; constructor; try done.
Qed.

Lemma ofZ_numerals n : Forall (fun c => isNumeral c = true) (ofZ n).
Proof.
  assert (H : forall d, Forall (fun c => isNumeral c = true) (lit (NilZero.string_of_uint d))).
  { intros d. assert (H := uint_numerals d).
    destruct d; try (eapply Forall_impl; [exact H|]; intros c Hc; unfold isNumeral; by rewrite Hc).
    by repeat constructor. }
  unfold ofZ. destruct (Z.to_int n) as [d|d]; simpl.
  - apply H.
  - constructor; [done|]. apply H.
Qed.

Lemma ofZ_nonempty n : ofZ n ≠ [].
Proof.
  unfold ofZ. destruct (Z.to_int n) as [d|d]; simpl; [|done].
  by destruct d.
Qed.

Lemma ofZ_inj n n' : ofZ n = ofZ n' -> n = n'.
Proof.
  unfold ofZ. intros H%lit_inj.
  assert (Hn : forall z, Z.to_int z ≠ Pos Nil /\ Z.to_int z ≠ Neg Nil).
  { intros [|p|p]; simpl; split; try done; intros [= E];
      by apply (DecimalPos.Unsigned.to_uint_nonnil p). }
  apply DecimalZ.to_int_inj.
  apply (f_equal NilZero.int_of_string) in H.
  destruct (Hn n), (Hn n'). rewrite !NilZero.isi in H by done. congruence.
Qed.

(** Separation at the first occurrence of a character. *)
Lemma app_sep_inj (c : char) (l1 r1 l2 r2 : str) :
  c ∉ l1 -> c ∉ l2 -> l1 ++ c :: r1 = l2 ++ c :: r2 -> l1 = l2 /\ r1 = r2.
Proof.
  revert l2. induction l1 as [|x l1 IH]; intros [|y l2] H1 H2 E; simpl in E.
  - by injection E.
  - injection E as -> _. exfalso. apply H2. by left.
  - injection E as -> _. exfalso. apply H1. by left.
  - injection E as -> E. apply not_elem_of_cons in H1 as [_ H1], H2 as [_ H2].
    destruct (IH l2 H1 H2 E) as [-> ->]. done.
Qed.

Lemma numerals_lack (c : char) (s : str) :
  isNumeral c = false -> Forall (fun x => isNumeral x = true) s -> c ∉ s.
Proof.
  intros Hc F Hin. rewrite Forall_forall in F. specialize (F c Hin). congruence.
Qed.

(** X5.  The identifier [`${chatId}_${messageId}`] that names a message
    directory determines the chat and the message: two messages share a
    directory only when they agree on both numbers. *)
Theorem sourceId_determines_message c m c' m' :
  ofZ c ++ lit "_" ++ ofZ m = ofZ c' ++ lit "_" ++ ofZ m' -> c = c' /\ m = m'.
Proof.
  intros E.
  apply (app_sep_inj UNDERSCORE) in E as [Ec Em].
  - split; by apply ofZ_inj.
  - apply numerals_lack; [done|apply ofZ_numerals].
  - apply numerals_lack; [done|apply ofZ_numerals].
Qed.

(** X5 on chat 456, message 789. *)
Lemma sourceId_determines_message_witness :
  ofZ 456 ++ lit "_" ++ ofZ 789 = ofZ 456 ++ lit "_" ++ ofZ 789
  /\ 456 = 456 /\ 789 = 789.
Proof.
  split; [reflexivity|].
  exact (sourceId_determines_message 456 789 456 789 eq_refl).
Defined.

Lemma split_first c (l r : str) : c ∉ l -> split c (l ++ c :: r) = l :: split c r.
Proof.
  induction l as [|x l IH]; intros H; simpl.
  - by rewrite N.eqb_refl.
  - apply not_elem_of_cons in H as [Hx H].
    destruct (N.eqb_spec x c); [congruence|]. by rewrite IH.
Qed.


Lemma split_none c (s : str) : c ∉ s -> split c s = [s].
Proof.
  induction s as [|x s IH]; intros H; simpl; [done|].
  apply not_elem_of_cons in H as [Hx H].
  destruct (N.eqb_spec x c); [congruence|]. by rewrite IH.
Qed.


Lemma dispatch_resolves P (channel msgId : str) :
  channel ≠ [] -> msgId ≠ [] -> COLON ∉ channel -> COLON ∉ msgId ->
  dispatchSource P [lit "--id"; channel ++ lit ":" ++ msgId]
  = inr (FromFile
           (path_join P [getMessageDir P channel msgId; lit "prompt.txt"])).
Proof.
  intros Hc Hi Nc Ni. unfold dispatchSource, includes.
  assert (E : split COLON (channel ++ lit ":" ++ msgId) = [channel; msgId]).
  { change (lit ":" ++ msgId) with (COLON :: msgId).
    by rewrite split_first, split_none. }
  assert (Hin : COLON ∈ channel ++ lit ":" ++ msgId).
  { apply elem_of_app. right. by left. }
  rewrite bool_decide_eq_false_2.
  2: { rewrite !elem_of_cons, elem_of_nil. intros [H|[H|[]]].
       - vm_compute in H. discriminate.
       - rewrite <- H in Hin. vm_compute in Hin.
         repeat (apply elem_of_cons in Hin as [Hin|Hin]; [discriminate|]).
         by apply elem_of_nil in Hin. }
  rewrite bool_decide_eq_true_2 by (apply elem_of_cons; by left).
  cbn [indexOfArg]. rewrite bool_decide_eq_true_2 by done.
  cbn [lookup list_lookup Nat.add default defined from_option].
  cbv [id]. rewrite E.
  cbn [lookup list_lookup default defined from_option]. cbv [id].
  destruct channel as [|x channel]; [done|].
  destruct msgId as [|y msgId]; [done|]. done.
Qed.


(** X6.  The arguments that ingress hands to nq after [dispatch] make
    [dispatch] read the very [prompt.txt] that ingress wrote for the
    message: [--id telegram:<chat>_<message>] resolves to the file
    [prompt.txt] in the message directory, for every chat and message
    number, negative chat numbers included. *)
Theorem dispatch_finds_the_prompt P c m :
  dispatchSource P
    [lit "--id"; lit "telegram" ++ lit ":" ++ ofZ c ++ lit "_" ++ ofZ m]
  = inr (FromFile
           (path_join P
              [getMessageDir P (lit "telegram")
                 (ofZ c ++ lit "_" ++ ofZ m);
               lit "prompt.txt"])).
Proof.
  apply dispatch_resolves.
  - done.
  - destruct (ofZ c) eqn:E; [by apply ofZ_nonempty in E|done].
  - vm_compute. intros H.
    repeat (apply elem_of_cons in H as [H|H]; [discriminate|]).
    by apply elem_of_nil in H.
  - intros H. apply elem_of_app in H as [H|H].
    { revert H. apply numerals_lack; [done|apply ofZ_numerals]. }
    change (lit "_" ++ ofZ m) with (UNDERSCORE :: ofZ m) in H.
    apply elem_of_cons in H as [H|H]; [discriminate|].
    revert H. apply numerals_lack; [done|apply ofZ_numerals].
Qed.

(** X7.  Where [dispatch] takes its prompt from.  [--stdin] wins over
    everything else; with [--id] the file read is [prompt.txt] in the
    message directory of a channel and an identifier that are both
    non-empty and free of colons; otherwise the prompt is the arguments
    joined by spaces, and it is not empty.  Each error exit happens with
    [--stdin] absent. *)
Theorem dispatch_source_cases P args :
  match dispatchSource P args with
  | inr FromStdin => lit "--stdin" ∈ args
  | inr (FromFile promptPath) =>
      (lit "--stdin" ∉ args) /\ (lit "--id" ∈ args)
      /\ exists channel msgId : str,
           (channel ≠ []) /\ (msgId ≠ [])
           /\ (COLON ∉ channel) /\ (COLON ∉ msgId)
           /\ promptPath
              = path_join P [getMessageDir P channel msgId; lit "prompt.txt"]
  | inr (Verbatim prompt) =>
      (lit "--stdin" ∉ args) /\ (lit "--id" ∉ args)
      /\ (prompt ≠ []) /\ prompt = join (lit " ") args
  | inl _ => lit "--stdin" ∉ args
  end.
Proof.
  unfold dispatchSource, includes.
  destruct (bool_decide (lit "--stdin" ∈ args)) eqn:Es.
  { by apply bool_decide_eq_true in Es. }
  apply bool_decide_eq_false in Es.
  destruct (bool_decide (lit "--id" ∈ args)) eqn:Ei.
  - apply bool_decide_eq_true in Ei.
    destruct (defined (args !! (indexOfArg (lit "--id") args + 1)%nat));
      [|done]. cbn [negb].
    set (parts := split COLON _).
    assert (F : Forall (fun l : str => COLON ∉ l) parts)
      by apply split_no_sep.
    destruct (parts !! 0%nat) as [channel|] eqn:E0; [|done].
    destruct (parts !! 1%nat) as [msgId|] eqn:E1;
      [|by destruct (defined (Some channel))].
    destruct (defined (Some channel)) eqn:Dc; [|done].
    destruct (defined (Some msgId)) eqn:Dm; [|done].
    cbn [negb orb default from_option]. cbv [id].
    rewrite Forall_lookup in F.
    split_and!; [done..|]. exists channel, msgId.
    split_and!; [by destruct channel|by destruct msgId|by eapply F
                |by eapply F|done].
  - apply bool_decide_eq_false in Ei.
    destruct (truthy (join (lit " ") args)) eqn:Et; [|done].
    cbn [negb]. split_and!; [done..| |done].
    by apply truthy_nonempty.
Qed.

End Identifiers.

(** ** The egress loops: the start-up scan and the watcher *)

Section Watcher.

Variable P : Platform.

Ltac emit :=
  repeat first
    [ apply Emits_ret | apply Emits_throw | apply Emits_settle
    | apply Emits_bind | apply Emits_tryCatch
    | apply Emits_await | apply Emits_consoleLog | apply Emits_consoleError
    | progress intros
    | done
    | match goal with
      | |- Emits _ (if ?b then _ else _) => destruct b
      | |- Emits _ (match ?x with _ => _ end) => destruct x
      end ].

Lemma whileLoop_emits Q chat reply :
  (forall text r, Q (Performed (SendMessage chat text reply MarkdownV2) r)) ->
  forall fuel rem, Emits Q (whileLoop fuel chat reply rem).
Proof.
  intros HQ. induction fuel as [|fuel IH]; intros rem; cbn [whileLoop].
  - emit.
  - destruct (MAX_LENGTH <? len rem); [|emit].
    apply Emits_bind; [emit|]. intros _. apply IH.
Qed.

Lemma sendSplitMessage_emits Q chat text reply :
  (forall text r, Q (Performed (SendMessage chat text reply MarkdownV2) r)) ->
  Emits Q (sendSplitMessage P chat text reply).
Proof.
  intros HQ. unfold sendSplitMessage.
  apply Emits_bind; [by apply whileLoop_emits|]. emit.
Qed.

Lemma retire_emits Q scanDir jobName meta :
  (forall ev, deliveryTarget ev = None -> Q ev) ->
  Emits Q (retire P scanDir jobName meta).
Proof. intros HQ. unfold retire. emit; by apply HQ. Qed.

Ltac emit_job :=
  repeat first
    [ apply sendSplitMessage_emits | apply retire_emits
    | apply Emits_ret | apply Emits_throw | apply Emits_settle
    | apply Emits_bind | apply Emits_tryCatch
    | apply Emits_await | apply Emits_consoleLog | apply Emits_consoleError
    | progress intros
    | progress cbv beta zeta
    | done
    | match goal with
      | |- Emits _ (if ?b then _ else _) => destruct b
      end ].

Lemma processJob_emits scanDir jobName :
  Emits (fun _ => True) (processJob P scanDir jobName).
Proof. unfold processJob. emit_job. Qed.

Lemma bind_await_starts {ty A} (c : Call ty) (k : El ty -> M A) :
  (forall a, Emits (fun _ => True) (k a)) ->
  forall o t, exists r evs,
    snd (bind (await c) k o t) = t ++ Performed c r :: evs.
Proof.
  intros Hk o t. unfold bind, await.
  destruct (o ty t c) as [a|e] eqn:E.
  - destruct (Hk a o (t ++ [Performed c (Returned a)])) as (evs & Ee & _).
    exists (Returned a), evs. rewrite Ee. by rewrite <- app_assoc.
  - by exists (Threw e), [].
Qed.

Lemma processJob_starts scanDir jobName o t :
  exists r evs,
    snd (processJob P scanDir jobName o t)
    = t ++ Performed (ReadTextFile (getJobMeta P jobName)) r :: evs.
Proof.
  apply bind_await_starts. intros metaText. emit_job.
Qed.

(** A job under its [try]: the error is logged, the loop goes on. *)
Lemma guarded_job scanDir jobName msg o t :
  exists r evs,
    tryCatch (processJob P scanDir jobName)
      (fun err => consoleError msg (ErrArg err)) o t
    = (Returned tt,
       t ++ Performed (ReadTextFile (getJobMeta P jobName)) r :: evs).
Proof.
  destruct (processJob_starts scanDir jobName o t) as (r & evs & E).
  unfold tryCatch.
  destruct (processJob P scanDir jobName o t) as [[[]|e] t'];
    simpl in E; subst t'.
  - by exists r, evs.
  - exists r, (evs ++ [ConsoleError msg (ErrArg e)]).
    unfold consoleError. by rewrite <- app_assoc.
Qed.

Lemma processJobs_run scanDir jobs : forall o t,
  exists evs,
    processJobs P scanDir jobs o t = (Returned tt, t ++ evs)
    /\ forall jobName, jobName ∈ jobs ->
         exists r, Performed (ReadTextFile (getJobMeta P jobName)) r ∈ evs.
Proof.
  induction jobs as [|job jobs IH]; intros o t.
  - exists []. split; [by rewrite app_nil_r|]. by intros ? ?%elem_of_nil.
  - cbn [processJobs].
    destruct (guarded_job scanDir job
                (lit "[egress] Error processing " ++ job ++ lit ":") o t)
      as (r & evs & E).
    unfold bind at 1. rewrite E.
    destruct (IH o (t ++ Performed (ReadTextFile (getJobMeta P job)) r :: evs))
      as (evs' & E' & H').
    exists (Performed (ReadTextFile (getJobMeta P job)) r :: evs ++ evs').
    split.
    + rewrite E'. by rewrite <- app_assoc.
    + intros jobName [->|Hin]%elem_of_cons.
      * exists r. by left.
      * destruct (H' jobName Hin) as (r' & Hr'). exists r'.
        right. apply elem_of_app. by right.
Qed.

Lemma scanAndProcess_run scanDir o t :
  match o TEntries t (ReadDir scanDir) with
  | Returned entries =>
      exists evs,
        scanAndProcess P scanDir o t
        = (Returned tt,
           t ++ Performed (ReadDir scanDir) (Returned entries) :: evs)
        /\ forall jobName, jobName ∈ collectJobs entries ->
             exists r,
               Performed (ReadTextFile (getJobMeta P jobName)) r ∈ evs
  | Threw e =>
      scanAndProcess P scanDir o t
      = (Returned tt,
         t ++ [Performed (ReadDir scanDir) (Threw e);
               ConsoleError (lit "[egress] Scan error:") (ErrArg e)])
  end.
Proof.
  unfold scanAndProcess, tryCatch, bind, await.
  destruct (o TEntries t (ReadDir scanDir)) as [entries|e].
  - destruct (processJobs_run scanDir (collectJobs entries) o
                (t ++ [Performed (ReadDir scanDir) (Returned entries)]))
      as (evs & Er & H).
    exists evs. rewrite Er. by rewrite <- app_assoc.
  - unfold consoleError. by rewrite <- app_assoc.
Qed.

(** X8.  The start-up scan never raises, whatever happens to a job or
    to the directory listing; and when the listing is obtained, every job
    collected from it is attempted: its [meta.json] is read, also after
    an earlier job has failed. *)
Theorem scan_attempts_every_job scanDir o t :
  fst (scanAndProcess P scanDir o t) = Returned tt
  /\ forall entries,
       o TEntries t (ReadDir scanDir) = Returned entries ->
       forall jobName, jobName ∈ collectJobs entries ->
       exists r,
         Performed (ReadTextFile (getJobMeta P jobName)) r
           ∈ snd (scanAndProcess P scanDir o t).
Proof.
  pose proof (scanAndProcess_run scanDir o t) as H.
  destruct (o TEntries t (ReadDir scanDir)) as [entries|e].
  - destruct H as (evs & E & H). rewrite E. split; [done|].
    intros ? [= <-] jobName Hin. destruct (H jobName Hin) as (r & Hr).
    exists r. cbn [snd]. apply elem_of_app. right. by right.
  - rewrite H. by split.
Qed.

(** ** The watch loop *)

Lemma handlePath_run processing path o t :
  let fileName := basename P path in
  let probe := Performed (Stat path) in
  let probeMeta := Performed (Stat (getJobMeta P fileName)) in
  exists evs,
    handlePath P processing path o t = (Returned processing, t ++ evs)
    /\ (evs = []
        \/ (startsWith COMMA fileName = true /\ (fileName ∉ processing)
            /\ ((exists e, evs = [probe (Threw e)])
                \/ (exists e, evs = [probe (Returned tt); probeMeta (Threw e)])
                \/ (exists r rest,
                      evs = probe (Returned tt) :: probeMeta (Returned tt)
                            :: Performed
                                 (ReadTextFile (getJobMeta P fileName)) r
                            :: rest)))).
Proof.
  intros fileName probe probeMeta. unfold handlePath. fold fileName.
  destruct (startsWith COMMA fileName) eqn:Ec; cbn [negb].
  2: { exists []. split; [by rewrite app_nil_r|by left]. }
  destruct (bool_decide (fileName ∈ processing)) eqn:Ei.
  { exists []. split; [by rewrite app_nil_r|by left]. }
  apply bool_decide_eq_false in Ei.
  unfold bind at 1. unfold tryCatch at 1. unfold bind at 1. unfold await at 1.
  destruct (o TUnit t (Stat path)) as [[]|e].
  2: { exists [probe (Threw e)]. split; [done|]. right. split_and!; eauto. }
  unfold bind at 1. unfold await at 1.
  destruct (o TUnit _ (Stat (getJobMeta P fileName))) as [[]|e].
  2: { exists [probe (Returned tt); probeMeta (Threw e)].
       split; [by rewrite <- app_assoc|]. right. split_and!; eauto. }
  cbn [ret negb].
  destruct (guarded_job (dirname P path) fileName
              (lit "[egress] Error processing " ++ fileName ++ lit ":") o
              ((t ++ [probe (Returned tt)]) ++ [probeMeta (Returned tt)]))
    as (r & evs & E).
  unfold bind.
  match goal with
  | |- context [tryCatch ?m ?h o ?tr] =>
      assert (E' : tryCatch m h o tr
                   = (Returned tt,
                      tr ++ Performed (ReadTextFile (getJobMeta P fileName)) r
                         :: evs)) by exact E;
      rewrite E'
  end.
  exists (probe (Returned tt) :: probeMeta (Returned tt)
          :: Performed (ReadTextFile (getJobMeta P fileName)) r :: evs).
  split.
  - unfold ret. rewrite <- !app_assoc.
    assert ((processing ∪ {[fileName]}) ∖ {[fileName]} = processing) as ->.
    { apply set_eq. intros x.
      rewrite elem_of_difference, elem_of_union, elem_of_singleton.
      split; [by intros [[?|?] ?]|].
      intros Hx. split; [by left|]. by intros ->. }
    done.
  - right. split_and!; eauto.
Qed.

Lemma handlePaths_returns ps : forall processing o t,
  fst (handlePaths P processing ps o t) = Returned processing.
Proof.
  induction ps as [|path ps IH]; intros processing o t; [done|].
  cbn [handlePaths]. unfold bind.
  destruct (handlePath_run processing path o t) as (evs & E & _).
  rewrite E. apply IH.
Qed.

Lemma watch_returns events : forall processing o t,
  fst (watch P processing events o t) = Returned processing.
Proof.
  induction events as [|event events IH]; intros processing o t; [done|].
  cbn [watch].
  destruct (bool_decide (kind event = lit "access")
            || bool_decide (kind event = lit "other")); [apply IH|].
  unfold bind.
  pose proof (handlePaths_returns (paths event) processing o t) as H.
  destruct (handlePaths P processing (paths event) o t) as [res t'].
  simpl in H. subst res. apply IH.
Qed.

Lemma egress_run events o t :
  exists res t',
    egress P events o t = (res, t')
    /\ match res with
       | Returned processing => processing = ∅
       | Threw e =>
           exists pre,
             t' = pre ++ [Performed
                            (WatchFs [QUEUE_COMPLETED_DIR P;
                                      QUEUE_FAILED_DIR P])
                            (Threw e)]
       end.
Proof.
  unfold egress.
  unfold bind at 1.
  pose proof (proj1 (scan_attempts_every_job (QUEUE_COMPLETED_DIR P) o t))
    as H1.
  destruct (scanAndProcess P (QUEUE_COMPLETED_DIR P) o t) as [r1 t1].
  simpl in H1. subst r1.
  unfold bind at 1.
  pose proof (proj1 (scan_attempts_every_job (QUEUE_FAILED_DIR P) o t1))
    as H2.
  destruct (scanAndProcess P (QUEUE_FAILED_DIR P) o t1) as [r2 t2].
  simpl in H2. subst r2.
  unfold bind, consoleLog, await.
  destruct (o TUnit _ (WatchFs _)) as [[]|e].
  - match goal with
    | |- context [watch P ∅ events o ?tr] =>
        pose proof (watch_returns events ∅ o tr) as H;
        destruct (watch P ∅ events o tr) as [res t']
    end.
    simpl in H. subst res. by exists (Returned ∅), t'.
  - eexists (Threw e), _. split; [done|]. by eexists.
Qed.

(** X9.  The watcher outlives every job.  One path of a file-system
    event never raises and leaves the guard set [processing] as it found
    it, so the set is empty whenever a path is examined; the watch loop
    never raises; and [egress] raises only when [Deno.watchFs] itself
    does. *)
Theorem watcher_survives_every_job :
  (forall processing path o t,
      fst (handlePath P processing path o t) = Returned processing)
  /\ (forall processing events o t,
        fst (watch P processing events o t) = Returned processing)
  /\ (forall events o t,
        match fst (egress P events o t) with
        | Returned processing => processing = ∅
        | Threw e =>
            exists pre,
              snd (egress P events o t)
              = pre ++ [Performed
                          (WatchFs [QUEUE_COMPLETED_DIR P; QUEUE_FAILED_DIR P])
                          (Threw e)]
        end).
Proof.
  split_and!.
  - intros processing path o t.
    destruct (handlePath_run processing path o t) as (evs & E & _).
    by rewrite E.
  - intros. apply watch_returns.
  - intros events o t.
    destruct (egress_run events o t) as (res & t' & E & H).
    by rewrite E.
Qed.

(** X10.  Of a path reported by the watcher, nothing but the two
    [Deno.stat] probes is performed unless the base name starts with a
    comma and both probes, of the path and of the job's [meta.json],
    returned. *)
Theorem watched_job_is_probed_first processing path o t ev :
  ev ∈ snd (handlePath P processing path o t) ->
  ev ∉ t ->
  isStatEvent ev = false ->
  startsWith COMMA (basename P path) = true
  /\ exists rest,
       snd (handlePath P processing path o t)
       = t ++ Performed (Stat path) (Returned tt)
           :: Performed (Stat (getJobMeta P (basename P path))) (Returned tt)
           :: rest.
Proof.
  destruct (handlePath_run processing path o t) as (evs & E & H).
  rewrite E. cbn [snd]. intros Hin Hnt Hs.
  apply elem_of_app in Hin as [Hin|Hin]; [done|].
  destruct H as [->|(Hc & _ & [(e & ->)|[(e & ->)|(r & rest & ->)]])].
  - by apply elem_of_nil in Hin.
  - apply list_elem_of_singleton in Hin. by subst ev.
  - apply elem_of_cons in Hin as [->|Hin]; [done|].
    apply list_elem_of_singleton in Hin. by subst ev.
  - split; [done|]. by eexists.
Qed.

(** X11.  Every delivery call of [processJob], the working indicator and
    each message, addresses the chat recorded in the job's [meta.json],
    and every message replies to the message recorded there. *)
Theorem replies_go_to_the_origin scanDir jobName o ev c rt :
  ev ∈ snd (run (processJob P scanDir jobName) o) ->
  deliveryTarget ev = Some (c, rt) ->
  exists metaText meta,
    o TText [] (ReadTextFile (getJobMeta P jobName)) = Returned metaText
    /\ parseMeta P metaText = Returned meta
    /\ c = chatId meta /\ (rt = None \/ rt = Some (messageId meta)).
Proof.
  rewrite processJob_run. cbv zeta.
  destruct (o TText [] (ReadTextFile (getJobMeta P jobName)))
    as [metaText|e] eqn:E1.
  2: { intros Hin%list_elem_of_singleton. by subst ev. }
  destruct (parseMeta P metaText) as [meta|e] eqn:Ep.
  2: { intros Hin%list_elem_of_singleton. by subst ev. }
  destruct (o TText _ (ReadTextFile (path_join P [scanDir; jobName])))
    as [logText|e].
  2: { intros [->|Hin%list_elem_of_singleton]%elem_of_cons; [done|].
       by subst ev. }
  destruct (truthy (jobOutput logText)).
  2: { intros [->|[->|Hin%list_elem_of_singleton]%elem_of_cons]%elem_of_cons;
         [done..|]. by subst ev. }
  intros Hin Ht. exists metaText, meta.
  assert (Hr : routed meta ev); [|by destruct (Hr c rt Ht)].
  match type of Hin with
  | _ ∈ snd (?m o ?tr) =>
      assert (Hm : Emits (routed meta) m);
        [|destruct (Hm o tr) as (evs & Ee & F); rewrite Ee in Hin]
  end.
  { emit_job.
    - intros c' rt' [= <- <-]. eauto.
    - intros c' rt' [= <- <-]. eauto.
    - intros c' rt' Heq. congruence. }
  apply elem_of_app in Hin as [Hin|Hin];
    [|by rewrite Forall_forall in F; apply F].
  apply elem_of_cons in Hin as [->|Hin%list_elem_of_singleton];
    [|subst ev]; by intros ? ? [=].
Qed.

End Watcher.

(** X8 on a directory that lists a job and a file that is none. *)
Lemma scan_attempts_every_job_witness :
  let entries := [ {| name := lit "notes.txt"; isFile := true |};
                   {| name := Sample.jobName; isFile := true |} ] in
  let o := listing entries (Sample.withJob Sample.wrapped) in
  o TEntries [] (ReadDir Sample.scanDir) = Returned entries
  /\ Sample.jobName ∈ collectJobs entries
  /\ exists r,
       Performed (ReadTextFile (getJobMeta Sample.platform Sample.jobName)) r
         ∈ snd (scanAndProcess Sample.platform Sample.scanDir o []).
Proof.
  intros entries o.
  assert (H1 : o TEntries [] (ReadDir Sample.scanDir) = Returned entries)
    by reflexivity.
  assert (H2 : Sample.jobName ∈ collectJobs entries)
    by (vm_compute; by left).
  split; [exact H1|]. split; [exact H2|].
  exact (proj2 (scan_attempts_every_job Sample.platform Sample.scanDir o [])
           entries H1 Sample.jobName H2).
Defined.

(** X10 on the job of the tests, reported by the watcher. *)
Lemma watched_job_is_probed_first_witness :
  let o := Sample.withJob Sample.wrapped in
  let ev := Performed (ReadTextFile Sample.metaPath)
              (Returned (lit "{meta}")) in
  ev ∈ snd (handlePath Sample.platform ∅ Sample.logPath o [])
  /\ (ev ∉ [])
  /\ isStatEvent ev = false
  /\ startsWith COMMA (basename Sample.platform Sample.logPath) = true
  /\ exists rest,
       snd (handlePath Sample.platform ∅ Sample.logPath o [])
       = [] ++ Performed (Stat Sample.logPath) (Returned tt)
           :: Performed
                (Stat (getJobMeta Sample.platform
                         (basename Sample.platform Sample.logPath)))
                (Returned tt)
           :: rest.
Proof.
  intros o ev.
  assert (H1 : ev ∈ snd (handlePath Sample.platform ∅ Sample.logPath o [])).
  { apply list_elem_of_lookup. exists 2%nat. by vm_compute. }
  assert (H2 : ev ∉ []) by apply not_elem_of_nil.
  assert (H3 : isStatEvent ev = false) by reflexivity.
  split; [exact H1|]. split; [exact H2|]. split; [exact H3|].
  exact (watched_job_is_probed_first Sample.platform ∅ Sample.logPath o []
           ev H1 H2 H3).
Defined.

(** X11 on the job of the tests: the reply goes to chat 123, message
    456. *)
Lemma replies_go_to_the_origin_witness :
  let o := Sample.withJob Sample.wrapped in
  let ev := Performed
              (SendMessage 123 (lit "hello" ++ [NL] ++ lit "world") 456
                 MarkdownV2) (Returned tt) in
  ev ∈ snd (run (processJob Sample.platform Sample.scanDir Sample.jobName) o)
  /\ deliveryTarget ev = Some (123, Some 456)
  /\ exists metaText meta,
       o TText [] (ReadTextFile
                     (getJobMeta Sample.platform Sample.jobName))
       = Returned metaText
       /\ parseMeta Sample.platform metaText = Returned meta
       /\ 123 = chatId meta
       /\ (Some 456 = None \/ Some 456 = Some (messageId meta)).
Proof.
  intros o ev.
  assert (H1 : ev ∈ snd (run (processJob Sample.platform Sample.scanDir
                                Sample.jobName) o)).
  { apply list_elem_of_lookup. exists 3%nat. by vm_compute. }
  assert (H2 : deliveryTarget ev = Some (123, Some 456)) by reflexivity.
  split; [exact H1|]. split; [exact H2|].
  exact (replies_go_to_the_origin Sample.platform Sample.scanDir
           Sample.jobName o ev 123 (Some 456) H1 H2).
Defined.

(** ** The ingress pipeline: downloads, staging, submission, link *)

Section Pipeline.

Variable P : Platform.
Variables (token : str) (allowedIds : gset str).

Ltac emit :=
  repeat first
    [ apply Emits_ret | apply Emits_throw | apply Emits_settle
    | apply Emits_bind | apply Emits_tryCatch
    | apply Emits_await | apply Emits_consoleLog | apply Emits_consoleError
    | progress intros
    | done
    | match goal with
      | |- Emits _ (if ?b then _ else _) => destruct b
      | |- Emits _ (match ?x with _ => _ end) => destruct x
      end ].

(** *** Downloads *)

Lemma downloadAttachment_run fileId dir fileName o t :
  exists res evs,
    downloadAttachment P token fileId dir fileName o t = (res, t ++ evs)
    /\ Forall isStaging evs
    /\ match res with
       | Returned path =>
           path = path_join P [dir; fileName]
           /\ omap writtenPath evs = [path]
       | Threw _ => omap writtenPath evs = []
       end.
Proof.
  unfold downloadAttachment.
  unfold bind at 1. unfold await at 1.
  destruct (o TPath t (GetFile fileId)) as [[fp|]|e].
  2,3: eexists _, [_]; split; [done|]; split; [by repeat constructor|done].
  destruct (truthy fp).
  2: eexists _, [_]; split; [done|]; split; [by repeat constructor|done].
  unfold bind at 1. unfold await at 1.
  destruct (o TResponse _ (Fetch _)) as [response|e].
  2: { eexists _, [_; _]. split; [by rewrite <- app_assoc|].
       split; [by repeat constructor|done]. }
  destruct (ok response).
  2: { eexists _, [_; _]. split; [by rewrite <- app_assoc|].
       split; [by repeat constructor|done]. }
  unfold bind at 1. unfold await at 1.
  destruct (o TBytes _ (ArrayBuffer _)) as [data|e].
  2: { eexists _, [_; _; _]. split; [by rewrite <- !app_assoc|].
       split; [by repeat constructor|done]. }
  unfold bind, await, ret.
  destruct (o TUnit _ (WriteFile _ _)) as [[]|e].
  - eexists _, [_; _; _; _]. split; [by rewrite <- !app_assoc|].
    split; [by repeat constructor|done].
  - eexists _, [_; _; _; _]. split; [by rewrite <- !app_assoc|].
    split; [by repeat constructor|done].
Qed.

Lemma downloadAll_run attachDir attachments : forall attachmentPaths o t,
  exists got evs,
    downloadAll P token attachDir attachments attachmentPaths o t
    = (Returned (attachmentPaths ++ got), t ++ evs)
    /\ Forall isStaging evs
    /\ omap writtenPath evs = got
    /\ got `sublist_of`
         ((fun attach => path_join P [attachDir; fileName attach])
            <$> attachments).
Proof.
  induction attachments as [|attach rest IH]; intros paths o t.
  - exists [], []. rewrite !app_nil_r. by split_and!.
  - cbn [downloadAll]. unfold bind at 1. unfold tryCatch. unfold bind at 1.
    destruct (downloadAttachment_run (Ingress.fileId attach) attachDir
                (fileName attach) o t) as (res & evs & E & F & H).
    rewrite E. destruct res as [path|e].
    + destruct H as [-> Hw].
      unfold bind, consoleLog, ret.
      match goal with
      | |- context [downloadAll _ _ _ _ ?ps o ?tr] =>
          destruct (IH ps o tr) as (got & evs' & E' & F' & Hw' & Hs)
      end.
      rewrite E'.
      exists (path_join P [attachDir; fileName attach] :: got),
             (evs ++ ConsoleLog (lit "[ingress] Downloaded attachment: "
                                 ++ path_join P [attachDir; fileName attach])
                  :: evs').
      split_and!.
      * by rewrite <- !app_assoc.
      * apply Forall_app. split; [done|]. by constructor.
      * by rewrite omap_app, Hw, <- Hw'.
      * rewrite fmap_cons. by apply sublist_skip.
    + unfold bind, consoleError, ret.
      match goal with
      | |- context [downloadAll _ _ _ _ ?ps o ?tr] =>
          destruct (IH ps o tr) as (got & evs' & E' & F' & Hw' & Hs)
      end.
      rewrite E'.
      eexists got, (evs ++ _ :: evs').
      split_and!.
      * by rewrite <- !app_assoc.
      * apply Forall_app. split; [done|]. by constructor.
      * by rewrite omap_app, H, <- Hw'.
      * rewrite fmap_cons. by apply sublist_cons.
Qed.

(** *** Staging *)

Lemma swallow_run (c : Call TUnit) o t :
  exists r,
    tryCatch (await c) (fun _ => ret tt) o t
    = (Returned tt, t ++ [Performed c r]).
Proof.
  unfold tryCatch, await, ret.
  destruct (o TUnit t c) as [[]|e] eqn:E; by eexists.
Qed.

Lemma stage_run messageDir text attachments o t :
  exists res evs,
    stage P token messageDir text attachments o t = (res, t ++ evs)
    /\ Forall isStaging evs
    /\ match res with
       | Returned None =>
           text = [] /\ (attachments ≠ []) /\ omap writtenPath evs = []
           /\ exists pre,
                evs = pre ++ [Performed (Remove messageDir true)
                                (Returned tt)]
       | Returned (Some attachmentPaths) =>
           omap writtenPath evs = attachmentPaths
           /\ (attachmentPaths ≠ [] \/ text ≠ [] \/ attachments = [])
       | Threw _ => attachments ≠ []
       end.
Proof.
  unfold stage. destruct attachments as [|a rest] eqn:Ea.
  { exists (Returned (Some [])), []. rewrite app_nil_r.
    split_and!; auto. }
  rewrite <- Ea.
  assert ((0 <? Z.of_nat (length attachments)) = true) as ->
    by (apply Z.ltb_lt; subst; simpl length; lia).
  assert (Hne : attachments ≠ []) by (by subst).
  clear Ea a rest.
  set (attachDir := path_join P [messageDir; lit "attachments"]).
  unfold bind at 1. unfold await at 1.
  set (ev0 := Performed (Mkdir attachDir true MODE)).
  destruct (o TUnit t (Mkdir attachDir true MODE)) as [[]|e].
  2: { exists (Threw e), [ev0 (Threw e)].
       split; [done|]. split; [by repeat constructor|done]. }
  unfold bind at 1.
  match goal with
  | |- context [downloadAll P token attachDir attachments [] o ?tr] =>
      destruct (downloadAll_run attachDir attachments [] o tr)
        as (got & evs & E & F & Hw & _); rewrite E
  end.
  cbn [app].
  destruct got as [|p got].
  2: { assert ((Z.of_nat (length (p :: got)) =? 0) = false) as ->
         by (apply Z.eqb_neq; simpl length; lia).
       exists (Returned (Some (p :: got))), (ev0 (Returned tt) :: evs).
       split; [by rewrite <- app_assoc|].
       split; [by constructor|]. split; [done|]. by left. }
  change (Z.of_nat (length (@nil str)) =? 0) with true. cbv iota.
  unfold bind at 1.
  set (ev1 := Performed (Remove attachDir true)).
  match goal with
  | |- context [tryCatch ?m ?h o ?tr] =>
      destruct (swallow_run (Remove attachDir true) o tr) as (r1 & E1);
      assert (E1' : tryCatch m h o tr = (Returned tt, tr ++ [ev1 r1]))
        by exact E1;
      rewrite E1'; clear E1 E1'
  end.
  destruct text as [|x text]; cbn [truthy negb].
  2: { exists (Returned (Some [])),
              (ev0 (Returned tt) :: evs ++ [ev1 r1]).
       split; [by rewrite <- !app_assoc|]. split.
       { constructor; [done|]. apply Forall_app. split; [done|].
         by repeat constructor. }
       split; [|by right; left].
       change (omap writtenPath (evs ++ [ev1 r1]) = []).
       rewrite omap_app, Hw. by destruct r1 as [[]|]. }
  unfold bind, await, ret.
  set (ev2 := Performed (Remove messageDir true)).
  destruct (o TUnit _ (Remove messageDir true)) as [[]|e].
  - exists (Returned None),
           (ev0 (Returned tt) :: evs ++ [ev1 r1; ev2 (Returned tt)]).
    split; [by rewrite <- !app_assoc|]. split.
    { constructor; [done|]. apply Forall_app. split; [done|].
      by repeat constructor. }
    split_and!; [done..| |].
    + change (omap writtenPath (evs ++ [ev1 r1; ev2 (Returned tt)]) = []).
      rewrite omap_app, Hw. by destruct r1 as [[]|].
    + exists (ev0 (Returned tt) :: evs ++ [ev1 r1]).
      cbn [app]. by rewrite <- app_assoc.
  - exists (Threw e),
           (ev0 (Returned tt) :: evs ++ [ev1 r1; ev2 (Threw e)]).
    split; [by rewrite <- !app_assoc|]. split; [|done].
    constructor; [done|]. apply Forall_app. split; [done|].
    by repeat constructor.
Qed.

(** *** Submission *)

Lemma ink_nonempty (c : char) (s : str) :
  isWhite c = false -> trim (c :: s) ≠ [].
Proof.
  intros Hc E. apply (f_equal ink) in E. rewrite ink_trim in E.
  unfold ink, str in E. by rewrite filter_cons_True in E.
Qed.

Lemma buildPrompt_nonempty text quote attachmentPaths :
  text ≠ [] \/ attachmentPaths ≠ [] ->
  buildPrompt text quote attachmentPaths ≠ [].
Proof.
  intros H. unfold buildPrompt.
  destruct attachmentPaths as [|p ps].
  - destruct H as [H|H]; [|done].
    change (0 <? Z.of_nat (length (@nil str))) with false. cbv iota.
    destruct (truthy quote); [done|done].
  - assert ((0 <? Z.of_nat (length (p :: ps))) = true) as ->
      by (apply Z.ltb_lt; simpl length; lia).
    by apply ink_nonempty.
Qed.

Lemma enqueue_run channel sourceId o t :
  let call :=
    RunCommand (lit "nq")
      [execPath P; lit "task"; lit "--quiet"; lit "cli"; lit "dispatch";
       lit "--id"; channel ++ lit ":" ++ sourceId]
      (moduleDir P)
      [(lit "NQDIR", QUEUE_DIR P); (lit "NQDONEDIR", QUEUE_COMPLETED_DIR P);
       (lit "NQFAILDIR", QUEUE_FAILED_DIR P)] in
  let r := o TOutput t call in
  enqueue P channel sourceId o t
  = match r with
    | Returned out =>
        if truthy (trim (stdout out)) && success out
        then (Returned (Some (trim (stdout out))), t ++ [Performed call r])
        else (Returned None,
              t ++ [Performed call r;
                    ConsoleError (lit "[ingress] nq failed:")
                      (StrArg (stderr out))])
    | Threw e => (Threw e, t ++ [Performed call r])
    end.
Proof.
  intros call r. unfold enqueue. fold call. unfold bind at 1. unfold await.
  fold r. destruct r as [out|e]; [|done].
  destruct (truthy (trim (stdout out))), (success out); cbn [negb orb andb].
  1: done.
  all: unfold bind, consoleError, ret; by rewrite <- app_assoc.
Qed.

Lemma accepted_shape text quote attachments c m uid o t :
  text ≠ [] \/ attachments ≠ [] ->
  let sourceId := ofZ c ++ lit "_" ++ ofZ m in
  let messageDir := getMessageDir P (lit "telegram") sourceId in
  let write prompt :=
    Performed (WriteTextFile (path_join P [messageDir; lit "prompt.txt"])
                 prompt) (Returned tt) in
  let submit :=
    Performed
      (RunCommand (lit "nq")
         [execPath P; lit "task"; lit "--quiet"; lit "cli"; lit "dispatch";
          lit "--id"; lit "telegram" ++ lit ":" ++ sourceId]
         (moduleDir P)
         [(lit "NQDIR", QUEUE_DIR P);
          (lit "NQDONEDIR", QUEUE_COMPLETED_DIR P);
          (lit "NQFAILDIR", QUEUE_FAILED_DIR P)]) in
  exists res evs,
    accepted P token text quote attachments c m uid o t = (res, t ++ evs)
    /\ (Forall isStaging evs
        \/ exists pre prompt r tail,
             evs = pre ++ write prompt :: submit r :: tail
             /\ Forall isStaging pre
             /\ prompt = buildPrompt text quote (omap writtenPath pre)
             /\ prompt ≠ []
             /\ (Forall isStaging tail
                 \/ exists out r1 tail',
                      r = Returned out /\ success out = true
                      /\ trim (stdout out) ≠ []
                      /\ tail = Performed
                                  (Symlink messageDir
                                     (getJobDir P (trim (stdout out)))) r1
                                :: tail'
                      /\ Forall isStaging tail')).
Proof.
  intros Hne sourceId messageDir write submit.
  remember (accepted P token text quote attachments c m uid o t) as k eqn:Hk.
  unfold accepted in Hk. fold sourceId in Hk. fold messageDir in Hk.
  unfold bind at 1 in Hk. unfold await at 1 in Hk.
  set (ev0 := Performed (Mkdir messageDir true MODE)
                (o TUnit t (Mkdir messageDir true MODE))) in *.
  assert (F0 : isStaging ev0) by done.
  destruct (o TUnit t (Mkdir messageDir true MODE)) as [[]|e].
  2: { exists (Threw e), [ev0]. split; [done|]. left. by repeat constructor. }
  unfold bind at 1 in Hk.
  destruct (stage_run messageDir text attachments o (t ++ [ev0]))
    as (staged & evs1 & E1 & F1 & R1).
  destruct (stage P token messageDir text attachments o (t ++ [ev0]))
    as [staged' t1].
  injection E1 as -> ->.
  destruct staged as [[paths|]|e].
  2,3: eexists _, (ev0 :: evs1); split;
    [by rewrite Hk, <- app_assoc|left; by constructor].
  destruct R1 as [Hw Hpaths].
  assert (Hp : buildPrompt text quote paths ≠ []).
  { apply buildPrompt_nonempty.
    destruct Hpaths as [?|[?|?]]; [by right|by left|].
    destruct Hne; [by left|done]. }
  cbv zeta in Hk.
  unfold bind at 1 in Hk. unfold await at 1 in Hk.
  set (ev2 := Performed (ReplyWithChatAction (lit "typing"))
                (o TUnit ((t ++ [ev0]) ++ evs1)
                   (ReplyWithChatAction (lit "typing")))) in *.
  assert (F2 : isStaging ev2) by done.
  destruct (o TUnit ((t ++ [ev0]) ++ evs1)
              (ReplyWithChatAction (lit "typing"))) as [[]|e].
  2: { eexists _, (ev0 :: evs1 ++ [ev2]). split;
         [by rewrite Hk, <- !app_assoc|].
       left. constructor; [done|]. apply Forall_app. split; [done|].
       by repeat constructor. }
  assert (Hpre : Forall isStaging (ev0 :: evs1 ++ [ev2])).
  { constructor; [done|]. apply Forall_app. split; [done|].
    by repeat constructor. }
  assert (Hwpre : omap writtenPath (ev0 :: evs1 ++ [ev2]) = paths).
  { change (omap writtenPath (evs1 ++ [ev2]) = paths).
    by rewrite omap_app, Hw, app_nil_r. }
  unfold bind at 1 in Hk. unfold await at 1 in Hk.
  set (t2 := ((t ++ [ev0]) ++ evs1) ++ [ev2]) in *.
  assert (Et2 : t2 = t ++ ev0 :: evs1 ++ [ev2])
    by (unfold t2; by rewrite <- !app_assoc).
  set (w := WriteTextFile (path_join P [messageDir; lit "prompt.txt"])
              (buildPrompt text quote paths)) in *.
  destruct (o TUnit t2 w) as [[]|e] eqn:Ew.
  2: { eexists _, ((ev0 :: evs1 ++ [ev2]) ++ [Performed w (Threw e)]).
       split; [by rewrite Hk, Et2, <- !app_assoc|].
       left. apply Forall_app. split; [done|]. by repeat constructor. }
  unfold bind at 1 in Hk.
  rewrite enqueue_run in Hk. cbv zeta in Hk.
  fold sourceId in Hk. fold submit in Hk.
  set (pre := ev0 :: evs1 ++ [ev2]) in *.
  set (prompt := buildPrompt text quote paths) in *.
  assert (Ew' : Performed w (Returned tt) = write prompt) by done.
  assert (Et3 : forall tail,
             (t2 ++ [Performed w (Returned tt)]) ++ tail
             = t ++ pre ++ write prompt :: tail).
  { intros tail. by rewrite Et2, Ew', <- !app_assoc. }
  destruct (o TOutput _ (RunCommand _ _ _ _)) as [out|e].
  2: { eexists _, (pre ++ write prompt :: [submit (Threw e)]).
       split; [by rewrite Hk, Et3|].
       right. exists pre, prompt, (Threw e), [].
       split_and!; [done|done|by rewrite Hwpre|done|left; constructor]. }
  destruct (truthy (trim (stdout out))) eqn:Etr, (success out) eqn:Es;
    cbn [andb] in Hk.
  2,3,4: eexists _, (pre ++ write prompt :: submit (Returned out) :: [_]);
    (split; [by rewrite Hk, Et3|]);
    right; exists pre, prompt, (Returned out); eexists;
    (split_and!; [done|done|by rewrite Hwpre|done|]);
    left; by repeat constructor.
  rewrite commit_run in Hk. cbv zeta in Hk.
  set (link := path_join P [DATA_DIR P; trim (stdout out) ++ lit ".d"]) in *.
  assert (Hout : trim (stdout out) ≠ []) by (by apply truthy_nonempty).
  destruct (o TUnit _ (Symlink messageDir link)) as [[]|e1];
    destruct (o TUnit _ (WriteTextFile
                           (path_join P [messageDir; lit "meta.json"]) _))
      as [[]|e2].
  all: eexists _, (pre ++ write prompt :: submit (Returned out)
                       :: Performed (Symlink messageDir link) _ :: _).
  all: split;
    [rewrite Hk; f_equal; rewrite <- ?app_assoc; cbn [app];
     rewrite Et2; unfold pre; rewrite <- ?app_assoc; cbn [app];
     reflexivity|].
  all: right; exists pre, prompt, (Returned out); eexists;
    (split_and!; [done|done|by rewrite Hwpre|done|]);
    right; exists out; eexists _, _;
    (split_and!; [done|done|done|reflexivity|]);
    by repeat constructor.
Qed.


(** *** The handler, from the arrival to the link *)

Lemma staging_then (P0 : Event -> Prop) evs ev :
  Forall P0 evs -> P0 ev -> Forall P0 (evs ++ [ev]).
Proof. intros. apply Forall_app. split; [done|]. by repeat constructor. Qed.

Lemma handler_pipeline ctx c m o :
  admitted allowedIds ctx c m ->
  let sourceId := ofZ c ++ lit "_" ++ ofZ m in
  let messageDir := getMessageDir P (lit "telegram") sourceId in
  let write prompt :=
    Performed (WriteTextFile (path_join P [messageDir; lit "prompt.txt"])
                 prompt) (Returned tt) in
  let submit :=
    Performed
      (RunCommand (lit "nq")
         [execPath P; lit "task"; lit "--quiet"; lit "cli"; lit "dispatch";
          lit "--id"; lit "telegram" ++ lit ":" ++ sourceId]
         (moduleDir P)
         [(lit "NQDIR", QUEUE_DIR P);
          (lit "NQDONEDIR", QUEUE_COMPLETED_DIR P);
          (lit "NQFAILDIR", QUEUE_FAILED_DIR P)]) in
  exists line rAck evs,
    snd (run (createIngressHandler P token allowedIds ctx) o)
    = ConsoleLog line
      :: Performed (ReplyWithChatAction (lit "typing")) rAck :: evs
    /\ (Forall isStaging evs
        \/ exists pre prompt r tail,
             evs = pre ++ write prompt :: submit r :: tail
             /\ Forall isStaging pre
             /\ prompt = buildPrompt (messageText ctx) (messageQuote ctx)
                           (omap writtenPath pre)
             /\ prompt ≠ []
             /\ (Forall isStaging tail
                 \/ exists out r1 tail',
                      r = Returned out /\ success out = true
                      /\ trim (stdout out) ≠ []
                      /\ tail = Performed
                                  (Symlink messageDir
                                     (getJobDir P (trim (stdout out)))) r1
                                :: tail'
                      /\ Forall isStaging tail')).
Proof.
  intros Hadm sourceId messageDir write submit.
  destruct (handler_admits P token allowedIds ctx c m Hadm) as [line Hrun].
  exists line.
  remember (run (createIngressHandler P token allowedIds ctx) o) as k eqn:Hk.
  unfold run in Hk. rewrite Hrun in Hk. clear Hrun.
  rewrite app_nil_l in Hk. unfold bind at 1 in Hk. unfold await at 1 in Hk.
  exists (o TUnit [ConsoleLog line] (ReplyWithChatAction (lit "typing"))).
  destruct (o TUnit [ConsoleLog line] (ReplyWithChatAction (lit "typing")))
    as [[]|e].
  2: { exists []. rewrite Hk. split; [done|]. left. constructor. }
  destruct Hadm as (_ & _ & _ & Hne).
  unfold tryCatch in Hk.
  match type of Hk with
  | context [accepted _ _ _ _ _ _ _ _ o ?tr] =>
      destruct (accepted_shape (messageText ctx) (messageQuote ctx)
                  (extractAttachments (message ctx)) c m
                  (from ctx ?. from_id) o tr Hne)
        as (res & evs & E & Hshape);
      rewrite E in Hk
  end.
  fold sourceId messageDir in Hshape. fold write submit in Hshape.
  destruct res as [[]|e].
  { exists evs. by rewrite Hk. }
  exists (evs ++ [ConsoleError (lit "[ingress] Error:") (ErrArg e)]).
  rewrite Hk. split; [unfold reportError, consoleError; by rewrite <- app_assoc|].
  set (ce := ConsoleError (lit "[ingress] Error:") (ErrArg e)).
  assert (Hce : isStaging ce) by done.
  destruct Hshape as [F|(pre & prompt & r & tail & -> & Fp & Ep & Hp & Ht)].
  { left. by apply staging_then. }
  right. exists pre, prompt, r, (tail ++ [ce]).
  split_and!; [by rewrite <- app_assoc|done..|].
  destruct Ht as [F|(out & r1 & tail' & -> & Hs & Ho & -> & F)].
  { left. by apply staging_then. }
  right. exists out, r1, (tail' ++ [ce]).
  split_and!; [done..|]. by apply staging_then.
Qed.

Lemma staging_lacks (Q : Event -> bool) ev evs :
  (forall ev, isStaging ev -> Q ev = false) ->
  Forall isStaging evs -> ev ∈ evs -> Q ev = true -> False.
Proof.
  intros HQ F Hin Hq. rewrite Forall_forall in F.
  specialize (HQ ev (F ev Hin)). congruence.
Qed.

(** X12.  The handler performs a call, of the chat client, the file
    system, the network or nq, exactly when the message passes the
    admission filter: an allowed sender, a chat and a message number, and
    text or attachments.  Every other message leaves log lines only. *)
Theorem handler_acts_iff_admitted ctx o :
  (exists ev,
      ev ∈ snd (run (createIngressHandler P token allowedIds ctx) o)
      /\ isCall ev = true)
  <-> exists c m, admitted allowedIds ctx c m.
Proof.
  split.
  - intros (ev & Hin & Hc).
    destruct (handler_cases P token allowedIds ctx)
      as [(l1 & l2 & E)|H]; [|done].
    unfold run in Hin. rewrite E in Hin. cbn [snd app] in Hin.
    apply elem_of_cons in Hin as [->|Hin]; [done|].
    apply list_elem_of_singleton in Hin. by subst ev.
  - intros (c & m & Hadm).
    destruct (handler_pipeline ctx c m o Hadm) as (line & r & evs & E & _).
    exists (Performed (ReplyWithChatAction (lit "typing")) r).
    rewrite E. split; [|done]. right. by left.
Qed.

Lemma sourceId_nonempty c m : ofZ c ++ lit "_" ++ ofZ m ≠ [].
Proof. destruct (ofZ c) eqn:E; [by apply ofZ_nonempty in E|done]. Qed.

Lemma sourceId_lacks_colon c m : COLON ∉ ofZ c ++ lit "_" ++ ofZ m.
Proof.
  intros H. apply elem_of_app in H as [H|H].
  { revert H. apply numerals_lack; [done|apply ofZ_numerals]. }
  change (lit "_" ++ ofZ m) with (UNDERSCORE :: ofZ m) in H.
  apply elem_of_cons in H as [H|H]; [discriminate|].
  revert H. apply numerals_lack; [done|apply ofZ_numerals].
Qed.

Lemma telegram_lacks_colon : COLON ∉ lit "telegram".
Proof.
  vm_compute. intros H.
  repeat (apply elem_of_cons in H as [H|H]; [discriminate|]).
  by apply elem_of_nil in H.
Qed.

(** X13.  nq is run at most once for a message, by the command [nq],
    and only right after [prompt.txt] was written in the message
    directory.  The prompt written is not empty, its manifest lists
    exactly the attachment files that were written before, and the
    arguments that follow [dispatch] on the command line make [dispatch]
    read that very file. *)
Theorem job_is_submitted_with_its_prompt ctx o cmd args cwd env r :
  Performed (RunCommand cmd args cwd env) r
    ∈ snd (run (createIngressHandler P token allowedIds ctx) o) ->
  exists c m pre prompt post,
    admitted allowedIds ctx c m
    /\ let promptPath :=
         path_join P [getMessageDir P (lit "telegram")
                        (ofZ c ++ lit "_" ++ ofZ m);
                      lit "prompt.txt"] in
       snd (run (createIngressHandler P token allowedIds ctx) o)
       = pre ++ Performed (WriteTextFile promptPath prompt) (Returned tt)
             :: Performed (RunCommand cmd args cwd env) r :: post
       /\ prompt = buildPrompt (messageText ctx) (messageQuote ctx)
                     (omap writtenPath pre)
       /\ prompt ≠ []
       /\ Forall (fun ev => isSubmission ev = false) (pre ++ post)
       /\ cmd = lit "nq"
       /\ dispatchSource P (drop 5 args) = inr (FromFile promptPath).
Proof.
  intros Hin.
  destruct (handler_cases P token allowedIds ctx)
    as [(l1 & l2 & E)|(c & m & Hadm)].
  { unfold run in Hin. rewrite E in Hin. cbn [snd app] in Hin.
    apply elem_of_cons in Hin as [[=]|Hin].
    apply list_elem_of_singleton in Hin. discriminate. }
  destruct (handler_pipeline ctx c m o Hadm)
    as (line & rAck & evs & E & Hshape).
  rewrite E in *. exists c, m.
  apply elem_of_cons in Hin as [[=]|Hin].
  apply elem_of_cons in Hin as [Heq|Hin].
  { apply (f_equal isSubmission) in Heq. discriminate. }
  assert (Hq : forall ev, isStaging ev -> isSubmission ev = false)
    by (by intros ? [? ?]).
  destruct Hshape as [F|(pre & prompt & r' & tail & -> & Fp & Ep & Hp & Ht)].
  { destruct (staging_lacks isSubmission _ _ Hq F Hin eq_refl). }
  assert (Ftail : Forall (fun ev => isSubmission ev = false) tail).
  { destruct Ht as [F|(out & r1 & tail' & _ & _ & _ & -> & F)].
    - eapply Forall_impl; [exact F|]. by intros ? [? ?].
    - constructor; [done|]. eapply Forall_impl; [exact F|]. by intros ? [? ?]. }
  apply elem_of_app in Hin as [Hin|Hin].
  { destruct (staging_lacks isSubmission _ _ Hq Fp Hin eq_refl). }
  apply elem_of_cons in Hin as [Heq|Hin].
  { apply (f_equal isSubmission) in Heq. discriminate. }
  apply elem_of_cons in Hin as [Heq|Hin].
  2: { rewrite Forall_forall in Ftail. by specialize (Ftail _ Hin). }
  apply Performed_inj in Heq as [Hc ->].
  injection Hc as -> -> -> ->.
  exists (ConsoleLog line
          :: Performed (ReplyWithChatAction (lit "typing")) rAck :: pre),
         prompt, tail.
  cbv zeta. split_and!; [done..| | |].
  - constructor; [done|]. constructor; [done|].
    apply Forall_app. split; [|done].
    eapply Forall_impl; [exact Fp|]. by intros ? [? ?].
  - done.
  - change (dispatchSource P
              [lit "--id";
               lit "telegram" ++ lit ":" ++ (ofZ c ++ lit "_" ++ ofZ m)]
            = inr (FromFile
                     (path_join P
                        [getMessageDir P (lit "telegram")
                           (ofZ c ++ lit "_" ++ ofZ m);
                         lit "prompt.txt"]))).
    apply dispatch_resolves;
      [done|apply sourceId_nonempty|apply telegram_lacks_colon
      |apply sourceId_lacks_colon].
Qed.

(** X14.  The job link is created at most once for a message, and only
    right after nq returned successfully with a job name that is not
    blank: the link is the [.d] entry of that name, trimmed, in the data
    directory, and it points to the message directory. *)
Theorem job_is_linked_after_submission ctx o target link r :
  Performed (Symlink target link) r
    ∈ snd (run (createIngressHandler P token allowedIds ctx) o) ->
  exists c m pre cmd args cwd env out post,
    admitted allowedIds ctx c m
    /\ snd (run (createIngressHandler P token allowedIds ctx) o)
       = pre ++ Performed (RunCommand cmd args cwd env) (Returned out)
             :: Performed (Symlink target link) r :: post
    /\ success out = true
    /\ trim (stdout out) ≠ []
    /\ link = getJobDir P (trim (stdout out))
    /\ target = getMessageDir P (lit "telegram") (ofZ c ++ lit "_" ++ ofZ m)
    /\ Forall (fun ev => isSymlinkEvent ev = false) (pre ++ post).
Proof.
  intros Hin.
  destruct (handler_cases P token allowedIds ctx)
    as [(l1 & l2 & E)|(c & m & Hadm)].
  { unfold run in Hin. rewrite E in Hin. cbn [snd app] in Hin.
    apply elem_of_cons in Hin as [[=]|Hin].
    apply list_elem_of_singleton in Hin. discriminate. }
  destruct (handler_pipeline ctx c m o Hadm)
    as (line & rAck & evs & E & Hshape).
  rewrite E in *. exists c, m.
  apply elem_of_cons in Hin as [[=]|Hin].
  apply elem_of_cons in Hin as [Heq|Hin].
  { apply (f_equal isSymlinkEvent) in Heq. discriminate. }
  assert (Hq : forall ev, isStaging ev -> isSymlinkEvent ev = false)
    by (by intros ? [? ?]).
  destruct Hshape as [F|(pre & prompt & r' & tail & -> & Fp & Ep & Hp & Ht)].
  { destruct (staging_lacks isSymlinkEvent _ _ Hq F Hin eq_refl). }
  apply elem_of_app in Hin as [Hin|Hin].
  { destruct (staging_lacks isSymlinkEvent _ _ Hq Fp Hin eq_refl). }
  apply elem_of_cons in Hin as [Heq|Hin].
  { apply (f_equal isSymlinkEvent) in Heq. discriminate. }
  apply elem_of_cons in Hin as [Heq|Hin].
  { apply (f_equal isSymlinkEvent) in Heq. discriminate. }
  destruct Ht as [F|(out & r1 & tail' & -> & Hs & Ho & -> & F)].
  { destruct (staging_lacks isSymlinkEvent _ _ Hq F Hin eq_refl). }
  apply elem_of_cons in Hin as [Heq|Hin].
  2: { destruct (staging_lacks isSymlinkEvent _ _ Hq F Hin eq_refl). }
  apply Performed_inj in Heq as [Hc ->].
  injection Hc as -> ->.
  eexists (ConsoleLog line
           :: Performed (ReplyWithChatAction (lit "typing")) rAck
           :: pre ++ [_]), _, _, _, _, out, tail'.
  split_and!; [done| |done..|].
  - cbn [app]. by rewrite <- app_assoc.
  - cbn [app]. constructor; [done|]. constructor; [done|].
    rewrite <- app_assoc. apply Forall_app. split.
    + eapply Forall_impl; [exact Fp|]. by intros ? [? ?].
    + constructor; [done|]. eapply Forall_impl; [exact F|]. by intros ? [? ?].
Qed.

(** X15.  The download loop never raises: a failed attachment is logged
    and skipped.  The paths it adds to [attachmentPaths] are exactly the
    files that were written, in the order of writing, and they are among
    the intended paths of the attachments, in their order. *)
Theorem downloads_are_best_effort attachDir attachments attachmentPaths o t :
  exists got evs,
    downloadAll P token attachDir attachments attachmentPaths o t
    = (Returned (attachmentPaths ++ got), t ++ evs)
    /\ omap writtenPath evs = got
    /\ got `sublist_of`
         ((fun attach => path_join P [attachDir; fileName attach])
            <$> attachments).
Proof.
  destruct (downloadAll_run attachDir attachments attachmentPaths o t)
    as (got & evs & E & _ & Hw & Hs).
  by exists got, evs.
Qed.

(** X16.  Staging returns early only for a message without text whose
    attachments all failed: nothing was written, and the last thing done
    is the removal of the message directory, which succeeded.  Otherwise
    the paths it yields are exactly the files written, and they are
    empty only when the message has text or had no attachments.  Staging
    raises only when there are attachments. *)
Theorem failed_attachments_are_rolled_back messageDir text attachments o t :
  exists evs,
    snd (stage P token messageDir text attachments o t) = t ++ evs
    /\ match fst (stage P token messageDir text attachments o t) with
       | Returned None =>
           text = [] /\ (attachments ≠ []) /\ omap writtenPath evs = []
           /\ exists pre,
                evs = pre ++ [Performed (Remove messageDir true)
                                (Returned tt)]
       | Returned (Some attachmentPaths) =>
           omap writtenPath evs = attachmentPaths
           /\ ((attachmentPaths ≠ []) \/ (text ≠ []) \/ attachments = [])
       | Threw _ => attachments ≠ []
       end.
Proof.
  destruct (stage_run messageDir text attachments o t)
    as (res & evs & E & _ & H).
  exists evs. by rewrite E.
Qed.

End Pipeline.

(** X12 on the message of the test 'queues valid message'. *)
Lemma handler_acts_iff_admitted_witness :
  (exists c m, admitted Sample.allowedIds Sample.hello c m)
  /\ exists ev,
       ev ∈ snd (run (createIngressHandler Sample.platform Sample.token
                        Sample.allowedIds Sample.hello) (Sample.calm []))
       /\ isCall ev = true.
Proof.
  assert (H : exists c m, admitted Sample.allowedIds Sample.hello c m)
    by (exists 456, 789; apply hello_admitted).
  split; [exact H|].
  exact (proj2 (handler_acts_iff_admitted Sample.platform Sample.token
                  Sample.allowedIds Sample.hello (Sample.calm [])) H).
Defined.

(** X13 on the message of the test 'queues valid message'. *)
Lemma job_is_submitted_with_its_prompt_witness :
  let handler := createIngressHandler Sample.platform Sample.token
                   Sample.allowedIds Sample.hello in
  let o := Sample.calm [] in
  let args := [lit "/usr/bin/deno"; lit "task"; lit "--quiet"; lit "cli";
               lit "dispatch"; lit "--id"; lit "telegram:456_789"] in
  let env := [(lit "NQDIR", lit "/queue");
              (lit "NQDONEDIR", lit "/queue/completed");
              (lit "NQFAILDIR", lit "/queue/failed")] in
  let r := Returned {| success := true; stdout := lit ",19a2b3c4d5e.4242";
                       stderr := [] |} in
  Performed (RunCommand (lit "nq") args (lit "/app") env) r
    ∈ snd (run handler o)
  /\ exists c m pre prompt post,
       admitted Sample.allowedIds Sample.hello c m
       /\ let promptPath :=
            path_join Sample.platform
              [getMessageDir Sample.platform (lit "telegram")
                 (ofZ c ++ lit "_" ++ ofZ m);
               lit "prompt.txt"] in
          snd (run handler o)
          = pre ++ Performed (WriteTextFile promptPath prompt) (Returned tt)
                :: Performed (RunCommand (lit "nq") args (lit "/app") env) r
                :: post
          /\ prompt = buildPrompt (messageText Sample.hello)
                        (messageQuote Sample.hello) (omap writtenPath pre)
          /\ prompt ≠ []
          /\ Forall (fun ev => isSubmission ev = false) (pre ++ post)
          /\ lit "nq" = lit "nq"
          /\ dispatchSource Sample.platform (drop 5 args)
             = inr (FromFile promptPath).
Proof.
  intros handler o args env r.
  assert (H : Performed (RunCommand (lit "nq") args (lit "/app") env) r
              ∈ snd (run handler o)).
  { apply list_elem_of_lookup. exists 5%nat. by vm_compute. }
  split; [exact H|].
  exact (job_is_submitted_with_its_prompt Sample.platform Sample.token
           Sample.allowedIds Sample.hello o (lit "nq") args (lit "/app") env
           r H).
Defined.

(** X14 on the message of the test 'queues valid message'. *)
Lemma job_is_linked_after_submission_witness :
  let handler := createIngressHandler Sample.platform Sample.token
                   Sample.allowedIds Sample.hello in
  let o := Sample.calm [] in
  let target := lit "/data/messages/telegram/456_789" in
  let link := lit "/data/,19a2b3c4d5e.4242.d" in
  Performed (Symlink target link) (Returned tt) ∈ snd (run handler o)
  /\ exists c m pre cmd args cwd env out post,
       admitted Sample.allowedIds Sample.hello c m
       /\ snd (run handler o)
          = pre ++ Performed (RunCommand cmd args cwd env) (Returned out)
                :: Performed (Symlink target link) (Returned tt) :: post
       /\ success out = true
       /\ trim (stdout out) ≠ []
       /\ link = getJobDir Sample.platform (trim (stdout out))
       /\ target = getMessageDir Sample.platform (lit "telegram")
                     (ofZ c ++ lit "_" ++ ofZ m)
       /\ Forall (fun ev => isSymlinkEvent ev = false) (pre ++ post).
Proof.
  intros handler o target link.
  assert (H : Performed (Symlink target link) (Returned tt)
              ∈ snd (run handler o)).
  { apply list_elem_of_lookup. exists 6%nat. by vm_compute. }
  split; [exact H|].
  exact (job_is_linked_after_submission Sample.platform Sample.token
           Sample.allowedIds Sample.hello o target link (Returned tt) H).
Defined.

(** ** The attachments of a message *)

(** X17.  A message yields at most four attachments, and each carries
    the [file_id] of a file of the message: of the last size listed for a
    photo, under the name [photo.jpg], or of the document, the audio or
    the voice note.  The placeholder ['<unknown>'] is never the
    identifier of a download. *)
Theorem attachments_come_from_the_message message :
  (length (extractAttachments message) <= 4)%nat
  /\ forall attach,
       attach ∈ extractAttachments message ->
       exists m file,
         message = Some m /\ Ingress.fileId attach = file_id file
         /\ ((exists sizes,
                 photo m = Some sizes /\ last sizes = Some file
                 /\ fileName attach = lit "photo.jpg")
             \/ document m = Some file
             \/ audio m = Some file
             \/ voice m = Some file).
Proof.
  destruct message as [m|]; [|split; [simpl; lia|by intros ? ?%elem_of_nil]].
  unfold extractAttachments.
  destruct (photo m) as [[|p ps]|] eqn:Ep, (document m) as [d|] eqn:Ed,
    (audio m) as [a|] eqn:Ea, (voice m) as [v|] eqn:Ev.
  all: split; [cbn [app length]; lia|].
  all: intros attach Hin; cbn [app] in Hin.
  all: repeat (apply elem_of_cons in Hin as [->|Hin]);
    try (by apply elem_of_nil in Hin).
  all: try (exists m, d; split_and!; [done..|]; by right; left).
  all: try (exists m, a; split_and!; [done..|]; by right; right; left).
  all: try (exists m, v; split_and!; [done..|]; by right; right; right).
  all: destruct (last (p :: ps)) as [f|] eqn:El;
    [|by apply last_None in El].
  all: exists m, f; split_and!; [done..|]; left; by exists (p :: ps).
Qed.

(** X17 on the reply with a document. *)
Lemma attachments_come_from_the_message_witness :
  let message := Ingress.message Sample.replyWithDocument in
  let attach := {| fileId := lit "F1"; fileName := lit "report.pdf" |} in
  attach ∈ extractAttachments message
  /\ exists m file,
       message = Some m /\ Ingress.fileId attach = file_id file
       /\ ((exists sizes,
               photo m = Some sizes /\ last sizes = Some file
               /\ fileName attach = lit "photo.jpg")
           \/ document m = Some file
           \/ audio m = Some file
           \/ voice m = Some file).
Proof.
  intros message attach.
  assert (H : attach ∈ extractAttachments message) by (by left).
  split; [exact H|].
  exact (proj2 (attachments_come_from_the_message message) attach H).
Defined.
